(** * AgentEscrow: bonded commit-reveal escrow

    A shallow embedding of [contracts/AgentEscrow.sol] and the proofs of
    the properties its specification states.

    Conventions of the embedding:
    - [uint256], [address] and [bytes32] values are numbers of type [N];
      Solidity 0.8 arithmetic is checked, so [+], [-] and [*] are the
      functions [checked_add], [checked_sub] and [checked_mul], which
      fail with [Panic] where the EVM reverts with Panic(0x11);
    - a call either reverts with an [Error], leaving every storage slot
      and every balance as it was, or returns the new state and the
      events it emitted;
    - [keccak256] and the MNEE token are not part of the contract: the
      hash is a parameter, the token an interface ([IERC20]);
    - the token answers each call and does not call back into the
      escrow, so the [nonReentrant] guard never fires and is left out;
    - the mapping [tasks] is a finite map read through [getTask], which
      gives the all-zero record for a key that was never written, as a
      Solidity mapping does. *)

From Stdlib Require Import NArith Lia List Bool.
From Stdlib Require Import Init.Byte.
From stdpp Require Import gmap strings.

Import ListNotations.
Local Open Scope N_scope.

(** ** Machine integers *)

Definition MAX_UINT256 : N := 2 ^ 256 - 1.

Definition address := N.
Definition bytes32 := N.
Definition bytes := list byte.

(** ** Errors *)

(** The fifteen custom errors of the contract, the arithmetic panic of
    checked arithmetic, and a revert raised by the token and passed on by
    SafeERC20. *)
Inductive Error : Type :=
| InvalidAmount
| InvalidBondAmount
| InvalidDeadline
| InputTooLarge
| OutputTooLarge
| TaskNotOpen
| TaskNotCommitted
| TaskAlreadyFinalized
| CommitWindowClosed
| RevealWindowExpired
| RevealWindowActive
| DeadlineNotPassed
| NotCommittedWorker
| InvalidCommitHash
| OutputHashMismatch
| Panic
| TokenRevert.

Inductive result (A : Type) : Type :=
| Ok (a : A)
| Err (e : Error).

Arguments Ok {A} a.
Arguments Err {A} e.

Definition bind {A B : Type} (r : result A) (k : A -> result B) : result B :=
  match r with
  | Ok a => k a
  | Err e => Err e
  end.

Notation "'let*' x ':=' r 'in' k" := (bind r (fun x => k))
  (at level 10, x name, r at level 100, k at level 200).

(** [revert_if c with e in k] is Solidity's [if (c) revert e();]
    followed by [k]. *)
Notation "'revert_if' c 'with' e 'in' k" := (if c then Err e else k)
  (at level 10, c at level 100, e at level 100, k at level 200).

Definition checked_add (a b : N) : result N :=
  if a + b <=? MAX_UINT256 then Ok (a + b) else Err Panic.

Definition checked_sub (a b : N) : result N :=
  if b <=? a then Ok (a - b) else Err Panic.

Definition checked_mul (a b : N) : result N :=
  if a * b <=? MAX_UINT256 then Ok (a * b) else Err Panic.

Definition of_token {A : Type} (o : option A) : result A :=
  match o with
  | Some a => Ok a
  | None => Err TokenRevert
  end.

(** ** Constants *)

Definition REVEAL_WINDOW : N := 600.
Definition MIN_BOND_BPS : N := 1000.
Definition MAX_INPUT_SIZE : N := 4096.
Definition MAX_OUTPUT_SIZE : N := 4096.

(** ** Types *)

Inductive TaskState : Type :=
| OPEN
| COMMITTED
| COMPLETED
| REFUNDED.

Global Instance TaskState_eq_dec : EqDecision TaskState.
Proof. solve_decision. Defined.

Record Task : Type := mkTask {
  requester : address;
  inputHash : bytes32;
  expectedOutputHash : bytes32;
  specHash : bytes32;
  amount : N;
  bondAmount : N;
  deadline : N;
  state : TaskState;
  committedWorker : address;
  commitHash : bytes32;
  revealDeadline : N
}.

Global Instance Task_eq_dec : EqDecision Task.
Proof. solve_decision. Defined.

(** What an unwritten slot of [tasks] reads as. *)
Definition zeroTask : Task :=
  mkTask 0 0 0 0 0 0 0 OPEN 0 0 0.

Definition set_state (t : Task) (s : TaskState) : Task :=
  mkTask (requester t) (inputHash t) (expectedOutputHash t) (specHash t)
         (amount t) (bondAmount t) (deadline t) s
         (committedWorker t) (commitHash t) (revealDeadline t).

Definition set_commitment (t : Task) (w : address) (h : bytes32) (rd : N) : Task :=
  mkTask (requester t) (inputHash t) (expectedOutputHash t) (specHash t)
         (amount t) (bondAmount t) (deadline t) (state t) w h rd.

Definition terminal (s : TaskState) : bool :=
  match s with
  | COMPLETED | REFUNDED => true
  | _ => false
  end.

Inductive Event : Type :=
| TaskCreated (taskId : N) (who : address) (inputBytes : bytes)
              (inHash outHash spHash : bytes32) (amt bond dl : N)
| TaskCommitted (taskId : N) (worker : address) (cHash : bytes32) (bond rd : N)
| TaskCompleted (taskId : N) (worker : address) (outputBytes : bytes)
| TaskRefunded (taskId : N) (who : address) (amt slashedBond : N)
| CommitExpired (taskId : N) (expiredWorker : address) (slashedBond : N).

(** The transaction context a call reads: [msg.sender] and
    [block.timestamp]. *)
Record Msg : Type := mkMsg {
  sender : address;
  timestamp : N
}.

(** ** The token interface *)

(** What the contract uses of [IERC20] through SafeERC20. [L] is the
    token's own storage. [safeTransferFrom l spender from to v] is the
    call [transferFrom(from, to, v)] made by [spender];
    [safeTransfer l from to v] is the call [transfer(to, v)] made by
    [from]. [None] is a revert. *)
Class IERC20 (L : Type) : Type := {
  safeTransferFrom : L -> address -> address -> address -> N -> option L;
  safeTransfer : L -> address -> address -> N -> option L
}.

(** ABI encoding of a 32-byte word: big endian, 32 bytes. *)
Definition byte_of_N (n : N) : byte :=
  match Byte.of_N (n mod 256) with
  | Some b => b
  | None => x00
  end.

Fixpoint be_bytes (len : nat) (x : N) : bytes :=
  match len with
  | O => []
  | S k => be_bytes k (x / 256) ++ [byte_of_N x]
  end.

(** [abi.encode(a, b)] for two [bytes32] values. *)
Definition abi_encode (a b : bytes32) : bytes :=
  be_bytes 32 a ++ be_bytes 32 b.

(** ** The contract *)

Section AgentEscrow.

Context {L : Type} `{Token : IERC20 L}.

(** The hash function of the EVM. *)
Variable keccak256 : bytes -> bytes32.

(** [address(this)]. *)
Variable this : address.

(** Storage of the contract, together with the storage of the token
    [mnee] it was deployed with. *)
Record State : Type := mkState {
  mnee : L;
  tasks : gmap N Task;
  nextTaskId : N
}.

(** [tasks[taskId]], also the view function [getTask]. *)
Definition getTask (st : State) (taskId : N) : Task :=
  default zeroTask (tasks st !! taskId).

Definition createTask (st : State) (msg : Msg) (inputBytes : bytes)
    (expectedOutputHash' specHash' : bytes32) (amount' bondAmount' deadline' : N)
    : result (State * N * list Event) :=
  revert_if (MAX_INPUT_SIZE <? N.of_nat (length inputBytes)) with InputTooLarge in
  revert_if (amount' =? 0) with InvalidAmount in
  let* scaled := checked_mul amount' MIN_BOND_BPS in
  revert_if (bondAmount' <? scaled / 10000) with InvalidBondAmount in
  let* earliest := checked_add (timestamp msg) REVEAL_WINDOW in
  revert_if (deadline' <=? earliest) with InvalidDeadline in
  let taskId := nextTaskId st in
  let* next := checked_add taskId 1 in
  let inputHash' := keccak256 inputBytes in
  let task := mkTask (sender msg) inputHash' expectedOutputHash' specHash'
                     amount' bondAmount' deadline' OPEN 0 0 0 in
  let* ledger := of_token (safeTransferFrom (mnee st) this (sender msg) this amount') in
  Ok (mkState ledger (<[taskId := task]> (tasks st)) next,
      taskId,
      [TaskCreated taskId (sender msg) inputBytes inputHash'
                   expectedOutputHash' specHash' amount' bondAmount' deadline']).

Definition commit (st : State) (msg : Msg) (taskId : N) (commitHash' : bytes32)
    : result (State * list Event) :=
  let task := getTask st taskId in
  revert_if (negb (bool_decide (state task = OPEN))) with TaskNotOpen in
  let* closes := checked_sub (deadline task) REVEAL_WINDOW in
  revert_if (closes <=? timestamp msg) with CommitWindowClosed in
  let* revealDeadline' := checked_add (timestamp msg) REVEAL_WINDOW in
  let task' := set_commitment (set_state task COMMITTED)
                              (sender msg) commitHash' revealDeadline' in
  let* ledger := of_token (safeTransferFrom (mnee st) this (sender msg) this (bondAmount task')) in
  Ok (mkState ledger (<[taskId := task']> (tasks st)) (nextTaskId st),
      [TaskCommitted taskId (sender msg) commitHash' (bondAmount task') revealDeadline']).

Definition reveal (st : State) (msg : Msg) (taskId : N) (outputBytes : bytes)
    (salt : bytes32) : result (State * list Event) :=
  let task := getTask st taskId in
  revert_if (MAX_OUTPUT_SIZE <? N.of_nat (length outputBytes)) with OutputTooLarge in
  revert_if (negb (bool_decide (state task = COMMITTED))) with TaskNotCommitted in
  revert_if (negb (sender msg =? committedWorker task)) with NotCommittedWorker in
  revert_if (revealDeadline task <? timestamp msg) with RevealWindowExpired in
  let outputHash := keccak256 outputBytes in
  let expectedCommitHash := keccak256 (abi_encode outputHash salt) in
  revert_if (negb (expectedCommitHash =? commitHash task)) with InvalidCommitHash in
  revert_if (negb (outputHash =? expectedOutputHash task)) with OutputHashMismatch in
  let task' := set_state task COMPLETED in
  let* totalPayout := checked_add (amount task') (bondAmount task') in
  let* ledger := of_token (safeTransfer (mnee st) this (sender msg) totalPayout) in
  Ok (mkState ledger (<[taskId := task']> (tasks st)) (nextTaskId st),
      [TaskCompleted taskId (sender msg) outputBytes]).

Definition expireCommit (st : State) (msg : Msg) (taskId : N)
    : result (State * list Event) :=
  let task := getTask st taskId in
  revert_if (negb (bool_decide (state task = COMMITTED))) with TaskNotCommitted in
  revert_if (timestamp msg <=? revealDeadline task) with RevealWindowActive in
  revert_if (deadline task <? timestamp msg) with DeadlineNotPassed in
  let expiredWorker := committedWorker task in
  let slashedBond := bondAmount task in
  let task' := set_commitment (set_state task OPEN) 0 0 0 in
  let* ledger := of_token (safeTransfer (mnee st) this (requester task') slashedBond) in
  Ok (mkState ledger (<[taskId := task']> (tasks st)) (nextTaskId st),
      [CommitExpired taskId expiredWorker slashedBond]).

Definition claimTimeout (st : State) (msg : Msg) (taskId : N)
    : result (State * list Event) :=
  let task := getTask st taskId in
  revert_if (bool_decide (state task = COMPLETED) || bool_decide (state task = REFUNDED))
    with TaskAlreadyFinalized in
  revert_if (timestamp msg <=? deadline task) with DeadlineNotPassed in
  revert_if (bool_decide (state task = COMMITTED) && (timestamp msg <=? revealDeadline task))
    with RevealWindowActive in
  let refundAmount := amount task in
  let slashedBond := if bool_decide (state task = COMMITTED) then bondAmount task else 0 in
  let task' := set_state task REFUNDED in
  let* total := (if 0 <? slashedBond then checked_add refundAmount slashedBond
                 else Ok refundAmount) in
  let* ledger := of_token (safeTransfer (mnee st) this (requester task') total) in
  Ok (mkState ledger (<[taskId := task']> (tasks st)) (nextTaskId st),
      [TaskRefunded taskId (requester task') refundAmount slashedBond]).

End AgentEscrow.

Arguments State L : clear implicits.
Arguments mkState {L} mnee tasks nextTaskId.

(** ** Sequences of transactions *)

Section Traces.

Context {L : Type} `{Token : IERC20 L}.
Variable keccak256 : bytes -> bytes32.
Variable this : address.

(** The external functions of the contract that change its storage. *)
Inductive Call : Type :=
| CreateTask (inputBytes : bytes) (expectedOutputHash' specHash' : bytes32)
             (amount' bondAmount' deadline' : N)
| Commit (taskId : N) (commitHash' : bytes32)
| Reveal (taskId : N) (outputBytes : bytes) (salt : bytes32)
| ExpireCommit (taskId : N)
| ClaimTimeout (taskId : N).

Definition call (st : State L) (msg : Msg) (c : Call)
    : result (State L * list Event) :=
  match c with
  | CreateTask i o s a b d =>
      let* r := createTask keccak256 this st msg i o s a b d in
      Ok (r.1.1, r.2)
  | Commit taskId h => commit this st msg taskId h
  | Reveal taskId o s => reveal keccak256 this st msg taskId o s
  | ExpireCommit taskId => expireCommit this st msg taskId
  | ClaimTimeout taskId => claimTimeout this st msg taskId
  end.

(** What happens between two observations of the state: a transaction
    sent to the escrow, or any activity on the token that does not go
    through the escrow (it may change the token's storage in any way). *)
Inductive Step : Type :=
| Tx (msg : Msg) (c : Call)
| TokenActivity (ledger : L).

(** A reverted transaction leaves the state as it was. *)
Definition step (st : State L) (s : Step) : State L :=
  match s with
  | Tx msg c =>
      match call st msg c with
      | Ok (st', _) => st'
      | Err _ => st
      end
  | TokenActivity ledger => mkState ledger (tasks st) (nextTaskId st)
  end.

Definition run (st : State L) (trace : list Step) : State L :=
  fold_left step trace st.

(** The state right after deployment. *)
Definition init (ledger : L) : State L := mkState ledger ∅ 0.

Definition succeeds (st : State L) (s : Step) : bool :=
  match s with
  | Tx msg c =>
      match call st msg c with
      | Ok _ => true
      | Err _ => false
      end
  | TokenActivity _ => false
  end.

Definition is_commit (taskId : N) (s : Step) : bool :=
  match s with
  | Tx _ (Commit i _) => i =? taskId
  | _ => false
  end.

(** The three calls that end a commitment. *)
Definition is_settlement (taskId : N) (s : Step) : bool :=
  match s with
  | Tx _ (Reveal i _ _) | Tx _ (ExpireCommit i) | Tx _ (ClaimTimeout i) => i =? taskId
  | _ => false
  end.

(** The two calls that pay out the escrowed amount. *)
Definition is_payout (taskId : N) (s : Step) : bool :=
  match s with
  | Tx _ (Reveal i _ _) | Tx _ (ClaimTimeout i) => i =? taskId
  | _ => false
  end.

(** Number of steps of [trace], run from [st], that satisfy [p] in the
    state they are executed in. *)
Fixpoint count_steps (p : State L -> Step -> bool) (st : State L)
    (trace : list Step) : nat :=
  match trace with
  | [] => 0%nat
  | s :: rest =>
      ((if p st s then 1 else 0) + count_steps p (step st s) rest)%nat
  end.

(** 1 when [taskId] holds a commitment, 0 otherwise. *)
Definition committed_now (st : State L) (taskId : N) : nat :=
  if bool_decide (state (getTask st taskId) = COMMITTED) then 1%nat else 0%nat.

(** Successful commits to [taskId]. *)
Definition commitments (taskId : N) : State L -> list Step -> nat :=
  count_steps (fun st s => is_commit taskId s && succeeds st s).

(** Successful reveal, expireCommit or claimTimeout calls that found
    [taskId] in state COMMITTED: the calls that dispose of a worker's
    bond. *)
Definition settlements (taskId : N) : State L -> list Step -> nat :=
  count_steps (fun st s =>
    is_settlement taskId s && succeeds st s
    && bool_decide (state (getTask st taskId) = COMMITTED)).

(** Successful reveal or claimTimeout calls on [taskId]: the calls
    that dispose of the escrowed amount. *)
Definition payouts (taskId : N) : State L -> list Step -> nat :=
  count_steps (fun st s => is_payout taskId s && succeeds st s).

(** The time of the last successful commit to [taskId] in [trace], or
    [acc] when there is none. *)
Fixpoint commitTime (taskId : N) (acc : option N) (st : State L)
    (trace : list Step) : option N :=
  match trace with
  | [] => acc
  | s :: rest =>
      commitTime taskId
        (match s with
         | Tx msg _ =>
             if is_commit taskId s && succeeds st s
             then Some (timestamp msg) else acc
         | TokenActivity _ => acc
         end)
        (step st s) rest
  end.

End Traces.

Arguments Step L : clear implicits.

(** ** A token ledger *)

(** Modelled from the spec: the MNEE token is an imported contract, not
    part of the sources. Section 6 gives its interface: a fungible
    balance ledger with transfer and approve semantics, where
    [transferIn(from, amount)] fails if the payer has insufficient
    balance or has not authorised the escrow, and [transferOut(to,
    amount)] fails only if the escrow holds less than [amount]. *)
Module Ledger.

Record t : Type := mk {
  balances : gmap address N;
  allowances : gmap (address * address) N
}.

Definition balanceOf (l : t) (a : address) : N :=
  default 0 (balances l !! a).

Definition allowance (l : t) (owner spender : address) : N :=
  default 0 (allowances l !! (owner, spender)).

Definition move (l : t) (from to : address) (v : N) : t :=
  let debited := <[from := balanceOf l from - v]> (balances l) in
  mk (<[to := default 0 (debited !! to) + v]> debited) (allowances l).

Definition transfer (l : t) (from to : address) (v : N) : option t :=
  if balanceOf l from <? v then None else Some (move l from to v).

Definition transferFrom (l : t) (spender from to : address) (v : N) : option t :=
  if allowance l from spender <? v then None
  else
    transfer (mk (balances l)
                 (<[(from, spender) := allowance l from spender - v]> (allowances l)))
             from to v.

Definition approve (l : t) (owner spender : address) (v : N) : t :=
  mk (balances l) (<[(owner, spender) := v]> (allowances l)).

Definition mint (l : t) (to : address) (v : N) : t :=
  mk (<[to := balanceOf l to + v]> (balances l)) (allowances l).

Definition empty : t := mk ∅ ∅.

End Ledger.

Global Instance Ledger_IERC20 : IERC20 Ledger.t := {
  safeTransferFrom := Ledger.transferFrom;
  safeTransfer := Ledger.transfer
}.

(** A stand-in for keccak256, to run the contract on concrete inputs.
    No theorem depends on it: they hold for every hash function. *)
Definition sample_hash (b : bytes) : bytes32 :=
  fold_left (fun h x => (h * 257 + Byte.to_N x + 1) mod 2 ^ 256) b 7.

(** What claimTimeout sends to the requester of task [t]. *)
Definition refund (t : Task) : N :=
  if bool_decide (state t = COMMITTED) then amount t + bondAmount t else amount t.

(** ** Invariants of the storage *)

(** What holds of the record of a task that [createTask] has stored. *)
Definition created_ok (t : Task) : Prop :=
  0 < amount t
  /\ amount t * MIN_BOND_BPS <= MAX_UINT256
  /\ amount t / 10 <= bondAmount t
  /\ REVEAL_WINDOW < deadline t
  /\ (state t = COMMITTED ->
      REVEAL_WINDOW <= revealDeadline t /\ revealDeadline t < deadline t)
  /\ (state t = OPEN ->
      committedWorker t = 0 /\ commitHash t = 0 /\ revealDeadline t = 0).

(** What a slot beyond [nextTaskId] can hold: nothing, or the mark left
    by a [claimTimeout] on it. *)
Definition never_created (t : Task) : Prop :=
  t = zeroTask \/ t = set_state zeroTask REFUNDED.

Definition consistent {L : Type} (st : State L) : Prop :=
  forall id,
    (id < nextTaskId st -> created_ok (getTask st id))
    /\ (nextTaskId st <= id -> never_created (getTask st id)).

(** Every slot beyond [nextTaskId] is unwritten. *)
Definition pristine {L : Type} (st : State L) : Prop :=
  forall id, nextTaskId st <= id -> getTask st id = zeroTask.

(** The token refuses the escrow's transfers to the zero address, as an
    OpenZeppelin ERC20 (such as MockMNEE) does. *)
Definition rejects_zero_address (L : Type) `{Token : IERC20 L} (this : address) : Prop :=
  forall (ledger : L) (v : N), safeTransfer ledger this 0 v = None.

(** ** A sample run *)

(** A requester (alice), a worker (bob) and a bystander (carol) around
    an escrow deployed at address 99; the task pays 10 for the output
    "X", with a bond of 1 and a deadline one hour after its creation at
    time 1000. *)
Module Sample.

Definition escrow : address := 99.
Definition alice : address := 1.
Definition bob : address := 2.
Definition carol : address := 3.

Definition ledger0 : Ledger.t :=
  Ledger.approve
    (Ledger.approve
       (Ledger.mint (Ledger.mint Ledger.empty alice 100) bob 100)
       alice escrow 100)
    bob escrow 100.

Definition X : bytes := [x58].
Definition S : bytes32 := 83.
Definition outputHash : bytes32 := sample_hash X.
Definition commitment : bytes32 := sample_hash (abi_encode outputHash S).

Definition create : Step Ledger.t :=
  Tx (mkMsg alice 1000) (CreateTask [x01] outputHash 5 10 1 4600).
Definition commit_bob : Step Ledger.t :=
  Tx (mkMsg bob 1100) (Commit 0 commitment).
Definition reveal_bob : Step Ledger.t :=
  Tx (mkMsg bob 1200) (Reveal 0 X S).
Definition timeout_carol : Step Ledger.t :=
  Tx (mkMsg carol 5000) (ClaimTimeout 0).

Definition opened : State Ledger.t :=
  run sample_hash escrow (init ledger0) [create].
Definition committed : State Ledger.t :=
  run sample_hash escrow (init ledger0) [create; commit_bob].
Definition completed : State Ledger.t :=
  run sample_hash escrow (init ledger0) [create; commit_bob; reveal_bob].
Definition refunded : State Ledger.t :=
  run sample_hash escrow (init ledger0) [create; commit_bob; timeout_carol].

(** An output one byte longer than [MAX_OUTPUT_SIZE]. *)
Definition oversized : bytes := repeat x00 4097.

(** The requester commits to her own task; carol later expires the
    commitment. *)
Definition commit_alice : Step Ledger.t :=
  Tx (mkMsg alice 1100) (Commit 0 commitment).
Definition expire_carol : Step Ledger.t :=
  Tx (mkMsg carol 1701) (ExpireCommit 0).
Definition self_committed : State Ledger.t :=
  run sample_hash escrow (init ledger0) [create; commit_alice].

End Sample.

(** ** More observations on runs *)

Section Observations.

Context {L : Type} `{Token : IERC20 L}.
Variable keccak256 : bytes -> bytes32.
Variable this : address.

Definition is_create (s : Step L) : bool :=
  match s with
  | Tx _ (CreateTask _ _ _ _ _ _) => true
  | _ => false
  end.

(** Successful createTask calls. *)
Definition creations : State L -> list (Step L) -> nat :=
  count_steps keccak256 this (fun st s => is_create s && succeeds keccak256 this st s).

(** The events a step emits: those of the call when it succeeds, none
    when it reverts. *)
Definition events_of_step (st : State L) (s : Step L) : list Event :=
  match s with
  | Tx msg c =>
      match call keccak256 this st msg c with
      | Ok (_, ev) => ev
      | Err _ => []
      end
  | TokenActivity _ => []
  end.

(** The event log of a run. *)
Fixpoint emitted (st : State L) (trace : list (Step L)) : list Event :=
  match trace with
  | [] => []
  | s :: rest => events_of_step st s ++ emitted (step keccak256 this st s) rest
  end.


(** What a successful step asks the token to move into the escrow. *)
Definition pulled_by (st : State L) (s : Step L) : N :=
  if succeeds keccak256 this st s then
    match s with
    | Tx _ (CreateTask _ _ _ a _ _) => a
    | Tx _ (Commit id _) => bondAmount (getTask st id)
    | _ => 0
    end
  else 0.

(** What a successful step asks the token to move out of the escrow. *)
Definition paid_by (st : State L) (s : Step L) : N :=
  if succeeds keccak256 this st s then
    match s with
    | Tx _ (Reveal id _ _) => amount (getTask st id) + bondAmount (getTask st id)
    | Tx _ (ExpireCommit id) => bondAmount (getTask st id)
    | Tx _ (ClaimTimeout id) => refund (getTask st id)
    | _ => 0
    end
  else 0.

Fixpoint pulled (st : State L) (trace : list (Step L)) : N :=
  match trace with
  | [] => 0
  | s :: rest => pulled_by st s + pulled (step keccak256 this st s) rest
  end.

Fixpoint paid (st : State L) (trace : list (Step L)) : N :=
  match trace with
  | [] => 0
  | s :: rest => paid_by st s + paid (step keccak256 this st s) rest
  end.

End Observations.

(** The state changes the contract makes. *)
Definition allowed (s s' : TaskState) : bool :=
  match s, s' with
  | OPEN, COMMITTED
  | COMMITTED, OPEN
  | COMMITTED, COMPLETED
  | OPEN, REFUNDED
  | COMMITTED, REFUNDED => true
  | _, _ => false
  end.

(** The fields of a task that no function writes after creation. *)
Definition terms (t : Task) : address * bytes32 * bytes32 * bytes32 * N * N * N :=
  (requester t, inputHash t, expectedOutputHash t, specHash t,
   amount t, bondAmount t, deadline t).

(** The tokens the escrow holds on behalf of a task. *)
Definition locked (t : Task) : N :=
  match state t with
  | OPEN => amount t
  | COMMITTED => amount t + bondAmount t
  | COMPLETED | REFUNDED => 0
  end.

Fixpoint sum_upto (f : N -> N) (n : nat) : N :=
  match n with
  | O => 0
  | S k => sum_upto f k + f (N.of_nat k)
  end.

(** The tokens held for all the created tasks. *)
Definition total_locked {L : Type} (st : State L) : N :=
  sum_upto (fun id => locked (getTask st id)) (N.to_nat (nextTaskId st)).

(** ** Hash helpers of the agents ([utils/encoding.ts]) *)

Module Encoding.

Section Hashes.

Variable keccak256 : bytes -> bytes32.

Definition computeOutputHash (outputBytes : bytes) : bytes32 :=
  keccak256 outputBytes.

Definition computeInputHash (inputBytes : bytes) : bytes32 :=
  keccak256 inputBytes.

Definition computeCommitHash (outputHash salt : bytes32) : bytes32 :=
  keccak256 (abi_encode outputHash salt).

End Hashes.

(** The number a sequence of bytes stands for, read big endian. *)
Definition be_value (bs : bytes) : N :=
  fold_left (fun acc b => acc * 256 + Byte.to_N b) bs 0.

End Encoding.

(** ** The agents *)

(** The agents are TypeScript programs. Their bigint values are
    integers of type [Z] ([/] on bigint truncates, which is [Z.quot]);
    their timestamps are JavaScript numbers holding whole seconds, also
    taken in [Z]; [Number(x)] for a bigint [x] is a parameter
    [toNumber], exact on integers up to [2^53]. What an awaited call
    returned (the chain time, the fee data, the computed output) is an
    argument of the function that awaits it. *)

(** The pending reveals a worker keeps on disk
    ([scripts/agents/lib/persistence.ts]). *)
Module Persistence.

Record PendingReveal : Type := mkPendingReveal {
  salt : string;
  outputBytes : string;
  commitHash : string;
  committedAt : Z;
  revealDeadline : Z
}.

(** [pendingReveals] is a plain JavaScript object, made by the literal
    [{}] or by [JSON.parse]: it has its own properties, here a finite
    map, and inherits those of [Object.prototype], whose names these
    are (ECMAScript, sections 20.1.3 and B.2.2). *)
Definition Object_prototype : list string :=
  ["constructor"; "hasOwnProperty"; "isPrototypeOf"; "propertyIsEnumerable";
   "toLocaleString"; "toString"; "valueOf"; "__proto__";
   "__defineGetter__"; "__defineSetter__"; "__lookupGetter__";
   "__lookupSetter__"].

(** What [o[key]] evaluates to: an own property, else the property of
    that name of [Object.prototype] (a function, or for [__proto__] the
    prototype itself), else [undefined]. *)
Inductive Read : Type :=
| Undefined
| Own (reveal : PendingReveal)
| Inherited (name : string).

Definition js_get (o : gmap string PendingReveal) (key : string) : Read :=
  match o !! key with
  | Some reveal => Own reveal
  | None => if bool_decide (key ∈ Object_prototype) then Inherited key else Undefined
  end.

(** [o[key] = reveal], as far as [JSON.stringify] sees it afterwards
    (it writes own properties only). An own property is overwritten, a
    new one is created, also under an inherited name such as
    [constructor]; but when [__proto__] is not an own property the
    assignment runs the setter of [Object.prototype], which makes
    [reveal] the prototype of [o] and creates no property. *)
Definition js_set (o : gmap string PendingReveal) (key : string)
    (reveal : PendingReveal) : gmap string PendingReveal :=
  if bool_decide (key = "__proto__") && bool_decide (o !! key = None) then o
  else <[key := reveal]> o.

(** [delete o[key]] removes an own property and nothing else. *)
Definition js_delete (o : gmap string PendingReveal) (key : string)
    : gmap string PendingReveal :=
  delete key o.

(** The value of [state.pendingReveals]: [undefined] or [null], or an
    object holding reveals. *)
Inductive Reveals : Type :=
| Nullish
| Object (own : gmap string PendingReveal).

Record WorkerState : Type := mkWorkerState {
  pendingReveals : Reveals
}.

(** What [JSON.parse] made of the file, which [loadWorkerState] returns
    unchecked: [null], or a value with its [pendingReveals]. A value
    that has no such property (as [{}], an array, a number or a string)
    has [pendingReveals = Nullish]. Files whose [pendingReveals] is
    neither nullish nor an object of reveals are not modelled. *)
Inductive Parsed : Type :=
| Null
| Value (state : WorkerState).

(** The file [data/worker-state.json]: not there, there with a content
    that [JSON.parse] refuses, or there with a content that parses. *)
Inductive StateFile : Type :=
| Absent
| Unparsable
| Holds (content : Parsed).

(** The disk: without the directory [data], or with it and the file. *)
Inductive Disk : Type :=
| NoDataDir
| DataDir (file : StateFile).

(** A call returns or throws a [TypeError] (a property of [null] or
    [undefined] is read or written). *)
Inductive Outcome (A : Type) : Type :=
| Returns (a : A)
| Throws.

Arguments Returns {A} a.
Arguments Throws {A}.

Definition ensureDataDir (d : Disk) : Disk :=
  match d with
  | NoDataDir => DataDir Absent
  | DataDir _ => d
  end.

Definition loadWorkerState (d : Disk) : Disk * Parsed :=
  let d' := ensureDataDir d in
  match d' with
  | DataDir (Holds content) => (d', content)
  | _ => (d', Value (mkWorkerState (Object ∅)))
  end.

Definition saveWorkerState (state : WorkerState) (d : Disk) : Disk :=
  match ensureDataDir d with
  | _ => DataDir (Holds (Value state))
  end.

Definition addPendingReveal (taskId : string) (reveal : PendingReveal) (d : Disk)
    : Disk * Outcome unit :=
  let '(d', state) := loadWorkerState d in
  match state with
  | Value (mkWorkerState (Object o)) =>
      (saveWorkerState (mkWorkerState (Object (js_set o taskId reveal))) d',
       Returns tt)
  | _ => (d', Throws)
  end.

Definition removePendingReveal (taskId : string) (d : Disk) : Disk * Outcome unit :=
  let '(d', state) := loadWorkerState d in
  match state with
  | Value (mkWorkerState (Object o)) =>
      (saveWorkerState (mkWorkerState (Object (js_delete o taskId))) d', Returns tt)
  | _ => (d', Throws)
  end.

Definition getPendingReveal (taskId : string) (d : Disk) : Disk * Outcome Read :=
  let '(d', state) := loadWorkerState d in
  match state with
  | Value (mkWorkerState (Object o)) => (d', Returns (js_get o taskId))
  | _ => (d', Throws)
  end.

Definition getAllPendingReveals (d : Disk) : Disk * Outcome Reveals :=
  let '(d', state) := loadWorkerState d in
  match state with
  | Value state => (d', Returns (pendingReveals state))
  | Null => (d', Throws)
  end.

End Persistence.

(** The requester agent ([scripts/agents/requester.ts]). *)
Module Requester.




End Requester.

(** The worker agent ([scripts/agents/worker.ts]). *)
Module Worker.

Record WorkerConfig : Type := mkWorkerConfig {
  minProfitMargin : Z;
  supportedSpecs : list bytes32;
  commitBuffer : Z;
  (** [Math.round(gasEstimateMultiplier * 100)] *)
  gasEstimatePercent : Z;
  mneePerEth : Z
}.

Record TaskCreatedEvent : Type := mkTaskCreatedEvent {
  taskId : Z;
  requester : address;
  inputBytes : bytes;
  inputHash : bytes32;
  expectedOutputHash : bytes32;
  specHash : bytes32;
  amount : Z;
  bondAmount : Z;
  deadline : Z
}.

Record FeeData : Type := mkFeeData {
  gasPrice : option Z;
  maxFeePerGas : option Z
}.

Inductive Reason : Type :=
| UnsupportedSpec
| NotEnoughTime
| FailedToComputeOutput
| OutputHashMismatch
| GasPriceUnavailable
| InsufficientProfitMargin.

Inductive Evaluation : Type :=
| Skip (reason : Reason)
| Accept (estimatedProfit : Z) (outputBytes : bytes).

Section Evaluate.

Variable keccak256 : bytes -> bytes32.

(** [Number(x)] for a bigint [x]. *)
Variable toNumber : Z -> Z.

(** [evaluateTask]. [currentTime] is what [getChainTime] returned,
    [output] what [computeOutput] returned ([None] when it threw),
    [feeData] what [getFeeData] returned. *)
Definition evaluateTask (config : WorkerConfig) (currentTime : Z)
    (output : option bytes) (feeData : FeeData) (event : TaskCreatedEvent)
    : Evaluation :=
  if negb (existsb (N.eqb (specHash event)) (supportedSpecs config))
  then Skip UnsupportedSpec
  else
    let commitCutoff :=
      (toNumber (deadline event) - Z.of_N REVEAL_WINDOW - commitBuffer config)%Z in
    if (commitCutoff <=? currentTime)%Z then Skip NotEnoughTime
    else
      match output with
      | None => Skip FailedToComputeOutput
      | Some outputBytes' =>
          let outputHash := Encoding.computeOutputHash keccak256 outputBytes' in
          if negb (outputHash =? expectedOutputHash event)
          then Skip OutputHashMismatch
          else
            let gasPrice' :=
              match gasPrice feeData with
              | Some g => Some g
              | None => maxFeePerGas feeData
              end in
            match gasPrice' with
            | None => Skip GasPriceUnavailable
            | Some g =>
                if (g =? 0)%Z then Skip GasPriceUnavailable
                else
                  let baseGas := 200000%Z in
                  let gasMultiplier := Z.max 1 (gasEstimatePercent config) in
                  let estimatedGas := Z.quot (baseGas * gasMultiplier) 100 in
                  let gasCostWei := (estimatedGas * g)%Z in
                  let gasCostInMnee :=
                    Z.quot (gasCostWei * mneePerEth config) (10 ^ 18) in
                  let estimatedProfit := (amount event - gasCostInMnee)%Z in
                  if (estimatedProfit <? minProfitMargin config)%Z
                  then Skip InsufficientProfitMargin
                  else Accept estimatedProfit outputBytes'
            end
      end.

End Evaluate.

End Worker.

(** * Proofs *)

(** ** Tactics *)

(** Turn the boolean tests of the contract's guards into propositions. *)
Ltac to_prop :=
  repeat match goal with
  | H : (_ <? _) = true |- _ => apply N.ltb_lt in H
  | H : (_ <? _) = false |- _ => apply N.ltb_ge in H
  | H : (_ <=? _) = true |- _ => apply N.leb_le in H
  | H : (_ <=? _) = false |- _ => apply N.leb_gt in H
  | H : (_ =? _) = true |- _ => apply N.eqb_eq in H
  | H : (_ =? _) = false |- _ => apply N.eqb_neq in H
  | H : negb _ = true |- _ => apply negb_true_iff in H
  | H : negb _ = false |- _ => apply negb_false_iff in H
  | H : bool_decide _ = true |- _ => apply bool_decide_eq_true_1 in H
  | H : bool_decide _ = false |- _ => apply bool_decide_eq_false_1 in H
  | H : _ && _ = true |- _ => apply andb_true_iff in H; destruct H
  | H : _ || _ = false |- _ => apply orb_false_iff in H; destruct H
  end.

(** Case analysis on the first guard left in a hypothesis or in the
    goal. *)
Ltac split_guard :=
  match goal with
  | H : context [if ?c then _ else _] |- _ => destruct c eqn:?
  | H : context [match ?o with Some _ => _ | None => _ end] |- _ => destruct o eqn:?
  | |- context [if ?c then _ else _] => destruct c eqn:?
  | |- context [match ?o with Some _ => _ | None => _ end] => destruct o eqn:?
  end.

Ltac guards :=
  unfold bind, checked_add, checked_sub, checked_mul, of_token in *;
  repeat (split_guard; simpl in *; try discriminate);
  to_prop.

(** ** Arithmetic of the bond check *)

Lemma bond_floor (a : N) : a * MIN_BOND_BPS / 10000 = a / 10.
Proof.
  unfold MIN_BOND_BPS.
  change 10000 with (10 * 1000).
  apply N.Div0.div_mul_cancel_r. discriminate.
Qed.

Lemma five_percent_below_floor (a b : N) : 0 < a -> b * 20 = a -> b < a / 10.
Proof.
  intros Ha Hb. subst a.
  replace (b * 20) with (2 * b * 10) by lia.
  rewrite N.div_mul by discriminate. lia.
Qed.

(** ** Reading and writing [tasks] *)

Section Storage.

Context {L : Type}.

Lemma getTask_insert (l l' : L) (m : gmap N Task) (n n' i j : N) (t : Task) :
  getTask (mkState l' (<[i := t]> m) n') j
  = if decide (i = j) then t else getTask (mkState l m n) j.
Proof.
  unfold getTask. simpl. rewrite lookup_insert.
  destruct (decide (i = j)); reflexivity.
Qed.

Lemma getTask_insert_eq (l : L) (m : gmap N Task) (n i : N) (t : Task) :
  getTask (mkState l (<[i := t]> m) n) i = t.
Proof. unfold getTask. simpl. by rewrite lookup_insert_eq. Qed.

Lemma getTask_insert_ne (l l' : L) (m : gmap N Task) (n n' i j : N) (t : Task) :
  i <> j ->
  getTask (mkState l' (<[i := t]> m) n') j = getTask (mkState l m n) j.
Proof. intros. unfold getTask. simpl. by rewrite lookup_insert_ne. Qed.

Lemma getTask_ledger (l l' : L) (m : gmap N Task) (n n' j : N) :
  getTask (mkState l' m n') j = getTask (mkState l m n) j.
Proof. reflexivity. Qed.

Lemma getTask_unwritten (st : State L) (i : N) :
  tasks st !! i = None -> getTask st i = zeroTask.
Proof. intros H. unfold getTask. by rewrite H. Qed.

End Storage.

(** ** What a successful call has checked and done *)

Section Calls.

Context {L : Type} `{Token : IERC20 L}.
Variable keccak256 : bytes -> bytes32.
Variable this : address.

Lemma createTask_Ok st msg input oh sh amt bond dl st' id ev :
  createTask keccak256 this st msg input oh sh amt bond dl = Ok (st', id, ev) ->
  N.of_nat (length input) <= MAX_INPUT_SIZE
  /\ 0 < amt /\ amt * MIN_BOND_BPS <= MAX_UINT256
  /\ amt * MIN_BOND_BPS / 10000 <= bond
  /\ timestamp msg + REVEAL_WINDOW < dl
  /\ id = nextTaskId st
  /\ exists ledger,
       safeTransferFrom (mnee st) this (sender msg) this amt = Some ledger
       /\ st' = mkState ledger
                  (<[id := mkTask (sender msg) (keccak256 input) oh sh amt bond dl
                                  OPEN 0 0 0]> (tasks st))
                  (id + 1)
       /\ ev = [TaskCreated id (sender msg) input (keccak256 input) oh sh amt bond dl].
Proof.
  unfold createTask. intros H. guards. inversion H; subst; clear H.
  repeat split; try lia. eexists; repeat split; reflexivity.
Qed.

Lemma commit_Ok st msg id h st' ev :
  commit this st msg id h = Ok (st', ev) ->
  let t := getTask st id in
  state t = OPEN
  /\ REVEAL_WINDOW <= deadline t
  /\ timestamp msg + REVEAL_WINDOW < deadline t
  /\ exists ledger,
       safeTransferFrom (mnee st) this (sender msg) this (bondAmount t) = Some ledger
       /\ st' = mkState ledger
                  (<[id := set_commitment (set_state t COMMITTED) (sender msg) h
                             (timestamp msg + REVEAL_WINDOW)]> (tasks st))
                  (nextTaskId st)
       /\ ev = [TaskCommitted id (sender msg) h (bondAmount t)
                              (timestamp msg + REVEAL_WINDOW)].
Proof.
  unfold commit. intros H. guards. inversion H; subst; clear H.
  repeat split; try lia; try assumption. eexists; repeat split; reflexivity.
Qed.

Lemma reveal_Ok st msg id out salt st' ev :
  reveal keccak256 this st msg id out salt = Ok (st', ev) ->
  let t := getTask st id in
  N.of_nat (length out) <= MAX_OUTPUT_SIZE
  /\ state t = COMMITTED
  /\ sender msg = committedWorker t
  /\ timestamp msg <= revealDeadline t
  /\ keccak256 (abi_encode (keccak256 out) salt) = commitHash t
  /\ keccak256 out = expectedOutputHash t
  /\ exists ledger,
       safeTransfer (mnee st) this (sender msg) (amount t + bondAmount t) = Some ledger
       /\ st' = mkState ledger (<[id := set_state t COMPLETED]> (tasks st))
                  (nextTaskId st)
       /\ ev = [TaskCompleted id (sender msg) out].
Proof.
  unfold reveal. intros H. guards. inversion H; subst; clear H.
  repeat split; try lia; try assumption. eexists; repeat split; reflexivity.
Qed.

Lemma expireCommit_Ok st msg id st' ev :
  expireCommit this st msg id = Ok (st', ev) ->
  let t := getTask st id in
  state t = COMMITTED
  /\ revealDeadline t < timestamp msg
  /\ timestamp msg <= deadline t
  /\ exists ledger,
       safeTransfer (mnee st) this (requester t) (bondAmount t) = Some ledger
       /\ st' = mkState ledger
                  (<[id := set_commitment (set_state t OPEN) 0 0 0]> (tasks st))
                  (nextTaskId st)
       /\ ev = [CommitExpired id (committedWorker t) (bondAmount t)].
Proof.
  unfold expireCommit. intros H. guards. inversion H; subst; clear H.
  repeat split; try lia; try assumption. eexists; repeat split; reflexivity.
Qed.

Lemma claimTimeout_Ok st msg id st' ev :
  claimTimeout this st msg id = Ok (st', ev) ->
  let t := getTask st id in
  (state t = OPEN \/ state t = COMMITTED)
  /\ deadline t < timestamp msg
  /\ (state t = COMMITTED -> revealDeadline t < timestamp msg)
  /\ exists ledger,
       safeTransfer (mnee st) this (requester t) (refund t) = Some ledger
       /\ st' = mkState ledger (<[id := set_state t REFUNDED]> (tasks st))
                  (nextTaskId st)
       /\ ev = [TaskRefunded id (requester t) (amount t)
                  (if bool_decide (state t = COMMITTED) then bondAmount t else 0)].
Proof.
  unfold claimTimeout, refund. intros H. simpl in H.
  destruct (state (getTask st id)) eqn:Hs; simpl in H; try discriminate.
  - guards. inversion H; subst; clear H.
    repeat split; try lia; try (intros; discriminate); auto.
    eexists; repeat split; eauto.
  - guards.
    + inversion H; subst; clear H.
      repeat split; try lia; auto. eexists; repeat split; eauto.
    + inversion H; subst; clear H.
      assert (bondAmount (getTask st id) = 0) as Hz by lia.
      repeat split; try lia; auto.
      eexists; repeat split; eauto.
      rewrite Hz, N.add_0_r. assumption.
Qed.

End Calls.

(** ** Creation *)

Section Creation.

Context {L : Type} `{Token : IERC20 L}.
Variable keccak256 : bytes -> bytes32.
Variable this : address.

Lemma createTask_low_bond st msg input oh sh amt bond dl :
  N.of_nat (length input) <= MAX_INPUT_SIZE ->
  0 < amt ->
  amt * MIN_BOND_BPS <= MAX_UINT256 ->
  bond < amt / 10 ->
  createTask keccak256 this st msg input oh sh amt bond dl = Err InvalidBondAmount.
Proof.
  intros Hlen Hamt Hfit Hbond. rewrite <- bond_floor in Hbond.
  unfold createTask. guards; try reflexivity; lia.
Qed.

Lemma createTask_early_deadline st msg input oh sh amt bond dl :
  N.of_nat (length input) <= MAX_INPUT_SIZE ->
  0 < amt ->
  amt * MIN_BOND_BPS <= MAX_UINT256 ->
  amt / 10 <= bond ->
  timestamp msg + REVEAL_WINDOW <= MAX_UINT256 ->
  dl <= timestamp msg + REVEAL_WINDOW ->
  createTask keccak256 this st msg input oh sh amt bond dl = Err InvalidDeadline.
Proof.
  intros Hlen Hamt Hfit Hbond Hnow Hdl. rewrite <- bond_floor in Hbond.
  unfold createTask. guards; try reflexivity; lia.
Qed.

Lemma createTask_overflow st msg input oh sh amt bond dl :
  N.of_nat (length input) <= MAX_INPUT_SIZE ->
  0 < amt ->
  MAX_UINT256 < amt * MIN_BOND_BPS ->
  createTask keccak256 this st msg input oh sh amt bond dl = Err Panic.
Proof.
  intros Hlen Hamt Hfit.
  unfold createTask. guards; try reflexivity; lia.
Qed.

(** C8, as amended. A successful [createTask] stores, under the id it
    returns, a task with [bondAmount >= amount / 10] (integer division,
    which is what [(amount * 1000) / 10000] computes) and
    [deadline > creationTime + 600]; a failed one changes nothing. When
    the size and amount checks pass and [amount * 1000] fits in a
    uint256, a bond below [amount / 10] is rejected with
    [InvalidBondAmount] -- in particular a bond of exactly 5% of the
    amount -- and, the bond being sufficient, a deadline not after
    [now + 600] with [InvalidDeadline]. When [amount * 1000] does not
    fit, the call fails with the arithmetic panic instead. *)
Theorem createTask_bond_and_deadline st msg input oh sh amt bond dl :
  let r := createTask keccak256 this st msg input oh sh amt bond dl in
  let tx := Tx msg (CreateTask input oh sh amt bond dl) in
  (forall st' id ev, r = Ok (st', id, ev) ->
     id = nextTaskId st
     /\ nextTaskId st' = id + 1
     /\ getTask st' id
        = mkTask (sender msg) (keccak256 input) oh sh amt bond dl OPEN 0 0 0
     /\ amount (getTask st' id) / 10 <= bondAmount (getTask st' id)
     /\ timestamp msg + 600 < deadline (getTask st' id)
     /\ step keccak256 this st tx = st')
  /\ (forall e, r = Err e -> step keccak256 this st tx = st)
  /\ (N.of_nat (length input) <= 4096 -> 0 < amt -> amt * 1000 <= MAX_UINT256 ->
        (bond < amt / 10 -> r = Err InvalidBondAmount)
     /\ (bond * 20 = amt -> r = Err InvalidBondAmount)
     /\ (amt / 10 <= bond -> timestamp msg + 600 <= MAX_UINT256 ->
         dl <= timestamp msg + 600 -> r = Err InvalidDeadline))
  /\ (N.of_nat (length input) <= 4096 -> 0 < amt -> MAX_UINT256 < amt * 1000 ->
        r = Err Panic).
Proof.
  intros r tx. subst r tx. split; [|split; [|split]].
  - intros st' id ev H. simpl. unfold call. rewrite H. simpl.
    apply createTask_Ok in H as (_ & _ & _ & Hb & Hd & -> & l & _ & -> & _).
    rewrite getTask_insert_eq. simpl. rewrite bond_floor in Hb.
    repeat split; assumption.
  - intros e H. simpl. unfold call. rewrite H. reflexivity.
  - intros Hlen Hamt Hfit. repeat split.
    + intros. by apply createTask_low_bond.
    + intros. apply createTask_low_bond; try done.
      by apply five_percent_below_floor.
    + intros. by apply createTask_early_deadline.
  - intros. by apply createTask_overflow.
Qed.

End Creation.

(** The theorem at work: an amount of 100 with a bond of 5, on an
    empty ledger. *)
Lemma createTask_bond_and_deadline_witness :
  N.of_nat (length [x01]) <= 4096 /\ 0 < 100 /\ 100 * 1000 <= MAX_UINT256
  /\ 5 * 20 = 100
  /\ createTask sample_hash 99 (init Ledger.empty) (mkMsg 1 1000) [x01] 7 8 100 5 4600
     = Err InvalidBondAmount.
Proof.
  assert (N.of_nat (length [x01]) <= 4096) as H1 by (vm_compute; discriminate).
  assert (0 < 100) as H2 by reflexivity.
  assert (100 * 1000 <= MAX_UINT256) as H3 by (vm_compute; discriminate).
  assert (5 * 20 = 100) as H4 by reflexivity.
  do 4 (split; [assumption|]).
  destruct (createTask_bond_and_deadline sample_hash 99 (init Ledger.empty)
              (mkMsg 1 1000) [x01] 7 8 100 5 4600) as (_ & _ & H & _).
  destruct (H H1 H2 H3) as (_ & H5 & _).
  exact (H5 H4).
Defined.

(** C8 as stated fails where [amount * 1000] overflows: with
    [amount = 20 * 2^250] and a bond of exactly 5% of it, the size and
    amount checks pass and the deadline is valid, yet the call fails
    with the arithmetic panic, not with [InvalidBondAmount]. *)
Lemma createTask_five_percent_panics :
  let amt := 20 * 2 ^ 250 in
  let bond := 2 ^ 250 in
  amt <= MAX_UINT256 /\ bond * 20 = amt /\ bond < amt / 10
  /\ createTask sample_hash 99 (init Ledger.empty) (mkMsg 1 1000) [x01] 7 8 amt bond 4600
     = Err Panic
  /\ createTask sample_hash 99 (init Ledger.empty) (mkMsg 1 1000) [x01] 7 8 amt bond 4600
     <> Err InvalidBondAmount.
Proof.
  vm_compute. repeat split; discriminate.
Qed.

(** ** Reveal *)

Section Reveal.

Context {L : Type} `{Token : IERC20 L}.
Variable keccak256 : bytes -> bytes32.
Variable this : address.

Lemma reveal_spec st msg id out salt :
  let t := getTask st id in
  N.of_nat (length out) <= MAX_OUTPUT_SIZE ->
  state t = COMMITTED ->
  sender msg = committedWorker t ->
  timestamp msg <= revealDeadline t ->
  keccak256 (abi_encode (keccak256 out) salt) = commitHash t ->
  keccak256 out = expectedOutputHash t ->
  amount t + bondAmount t <= MAX_UINT256 ->
  reveal keccak256 this st msg id out salt
  = match safeTransfer (mnee st) this (sender msg) (amount t + bondAmount t) with
    | Some ledger =>
        Ok (mkState ledger (<[id := set_state t COMPLETED]> (tasks st)) (nextTaskId st),
            [TaskCompleted id (sender msg) out])
    | None => Err TokenRevert
    end.
Proof.
  intros t Hlen Hst Hw Htime Hc Ho Hfit. subst t.
  unfold reveal. rewrite Hst, Hw, Hc, Ho. simpl.
  rewrite !N.eqb_refl. simpl.
  guards; try reflexivity; lia.
Qed.

Lemma reveal_not_worker st msg id out salt :
  N.of_nat (length out) <= MAX_OUTPUT_SIZE ->
  state (getTask st id) = COMMITTED ->
  sender msg <> committedWorker (getTask st id) ->
  reveal keccak256 this st msg id out salt = Err NotCommittedWorker.
Proof.
  intros Hlen Hst Hw. unfold reveal. rewrite Hst. simpl.
  guards; try reflexivity; try lia; congruence.
Qed.

(** Where the tokens of a successful call go: into the escrow from the
    caller (createTask, commit), to the committed worker (reveal only),
    or to the recorded requester (expireCommit, claimTimeout). *)
Lemma payment_of_call st msg c st' ev :
  call keccak256 this st msg c = Ok (st', ev) ->
  (exists v,
     ((exists i o s b d, c = CreateTask i o s v b d) \/ (exists id h, c = Commit id h))
     /\ safeTransferFrom (mnee st) this (sender msg) this v = Some (mnee st'))
  \/ (exists id out salt,
        c = Reveal id out salt
        /\ state (getTask st id) = COMMITTED
        /\ sender msg = committedWorker (getTask st id)
        /\ safeTransfer (mnee st) this (committedWorker (getTask st id))
             (amount (getTask st id) + bondAmount (getTask st id)) = Some (mnee st'))
  \/ (exists id v,
        (c = ExpireCommit id \/ c = ClaimTimeout id)
        /\ safeTransfer (mnee st) this (requester (getTask st id)) v = Some (mnee st')).
Proof.
  destruct c as [i o s a b d | id h | id out salt | id | id]; simpl; intros H.
  - left. destruct (createTask _ _ _ _ _ _ _ _ _ _) as [[[s1 n1] e1]|] eqn:E;
      simpl in H; inversion H; subst; clear H.
    apply createTask_Ok in E as (_ & _ & _ & _ & _ & _ & l & Hl & -> & _).
    exists a. split; [left; eauto 10 | exact Hl].
  - left. apply commit_Ok in H as (_ & _ & _ & l & Hl & -> & _).
    eexists. split; [right; eauto | exact Hl].
  - right; left. apply reveal_Ok in H as (_ & Hs & Hw & _ & _ & _ & l & Hl & -> & _).
    exists id, out, salt. rewrite <- Hw. auto.
  - right; right. apply expireCommit_Ok in H as (_ & _ & _ & l & Hl & -> & _).
    eauto 10.
  - right; right. apply claimTimeout_Ok in H as (_ & _ & _ & l & Hl & -> & _).
    eauto 10.
Qed.

(** C5. On a COMMITTED task, a reveal by anyone but the committed
    worker fails with [NotCommittedWorker] whatever output (of at most
    4096 bytes) and salt it carries -- so also with the worker's own
    output and salt -- and the state stays as it was. *)
Theorem reveal_by_other_fails st msg id out salt :
  state (getTask st id) = COMMITTED ->
  sender msg <> committedWorker (getTask st id) ->
  N.of_nat (length out) <= 4096 ->
  reveal keccak256 this st msg id out salt = Err NotCommittedWorker
  /\ step keccak256 this st (Tx msg (Reveal id out salt)) = st.
Proof.
  intros Hst Hw Hlen.
  assert (reveal keccak256 this st msg id out salt = Err NotCommittedWorker) as H
    by (by apply reveal_not_worker).
  split; [exact H|]. simpl. by rewrite H.
Qed.

End Reveal.

(** ** Commit, expiry and timeout: what the guards let through *)

Section Guards.

Context {L : Type} `{Token : IERC20 L}.
Variable keccak256 : bytes -> bytes32.
Variable this : address.

Lemma commit_spec st msg id h :
  let t := getTask st id in
  state t = OPEN ->
  timestamp msg + REVEAL_WINDOW < deadline t ->
  deadline t <= MAX_UINT256 ->
  commit this st msg id h
  = match safeTransferFrom (mnee st) this (sender msg) this (bondAmount t) with
    | Some ledger =>
        Ok (mkState ledger
              (<[id := mkTask (requester t) (inputHash t) (expectedOutputHash t)
                              (specHash t) (amount t) (bondAmount t) (deadline t)
                              COMMITTED (sender msg) h (timestamp msg + REVEAL_WINDOW)]>
                 (tasks st))
              (nextTaskId st),
            [TaskCommitted id (sender msg) h (bondAmount t)
                           (timestamp msg + REVEAL_WINDOW)])
    | None => Err TokenRevert
    end.
Proof.
  intros t Hst Htime Hfit. subst t. unfold commit. rewrite Hst. simpl.
  guards; try reflexivity; lia.
Qed.

Lemma commit_window_closed st msg id h :
  let t := getTask st id in
  state t = OPEN ->
  REVEAL_WINDOW <= deadline t ->
  deadline t - REVEAL_WINDOW <= timestamp msg ->
  commit this st msg id h = Err CommitWindowClosed.
Proof.
  intros t Hst Hd Htime. subst t. unfold commit. rewrite Hst. simpl.
  guards; try reflexivity; lia.
Qed.

Lemma commit_not_open st msg id h :
  state (getTask st id) <> OPEN ->
  commit this st msg id h = Err TaskNotOpen.
Proof.
  intros Hst. unfold commit.
  destruct (state (getTask st id)); simpl; congruence.
Qed.

Lemma commit_unwritten st msg id h :
  getTask st id = zeroTask ->
  commit this st msg id h = Err Panic.
Proof. intros Hz. unfold commit. rewrite Hz. reflexivity. Qed.

Lemma expireCommit_spec st msg id :
  let t := getTask st id in
  state t = COMMITTED ->
  revealDeadline t < timestamp msg ->
  timestamp msg <= deadline t ->
  expireCommit this st msg id
  = match safeTransfer (mnee st) this (requester t) (bondAmount t) with
    | Some ledger =>
        Ok (mkState ledger
              (<[id := mkTask (requester t) (inputHash t) (expectedOutputHash t)
                              (specHash t) (amount t) (bondAmount t) (deadline t)
                              OPEN 0 0 0]> (tasks st))
              (nextTaskId st),
            [CommitExpired id (committedWorker t) (bondAmount t)])
    | None => Err TokenRevert
    end.
Proof.
  intros t Hst Hrd Hd. subst t. unfold expireCommit. rewrite Hst. simpl.
  guards; try reflexivity; lia.
Qed.

Lemma expireCommit_not_committed st msg id :
  state (getTask st id) <> COMMITTED ->
  expireCommit this st msg id = Err TaskNotCommitted.
Proof.
  intros Hst. unfold expireCommit.
  destruct (state (getTask st id)); simpl; congruence.
Qed.

Lemma reveal_not_committed st msg id out salt :
  state (getTask st id) <> COMMITTED ->
  reveal keccak256 this st msg id out salt
  = Err (if MAX_OUTPUT_SIZE <? N.of_nat (length out)
         then OutputTooLarge else TaskNotCommitted).
Proof.
  intros Hst. unfold reveal.
  destruct (MAX_OUTPUT_SIZE <? N.of_nat (length out)); [reflexivity|].
  destruct (state (getTask st id)); simpl; congruence.
Qed.

Lemma claimTimeout_spec st msg id :
  let t := getTask st id in
  terminal (state t) = false ->
  deadline t < timestamp msg ->
  (state t = COMMITTED -> revealDeadline t < timestamp msg) ->
  (state t = COMMITTED -> amount t + bondAmount t <= MAX_UINT256) ->
  claimTimeout this st msg id
  = match safeTransfer (mnee st) this (requester t) (refund t) with
    | Some ledger =>
        Ok (mkState ledger (<[id := set_state t REFUNDED]> (tasks st)) (nextTaskId st),
            [TaskRefunded id (requester t) (amount t)
               (if bool_decide (state t = COMMITTED) then bondAmount t else 0)])
    | None => Err TokenRevert
    end.
Proof.
  intros t Hst Hd Hrd Hfit. subst t. unfold claimTimeout, refund.
  destruct (state (getTask st id)) eqn:Hs; simpl in *; try discriminate.
  - guards; try reflexivity; lia.
  - specialize (Hrd eq_refl). specialize (Hfit eq_refl).
    destruct (0 <? bondAmount (getTask st id)) eqn:Hb.
    + guards; try reflexivity; lia.
    + assert (bondAmount (getTask st id) = 0) as Hz by (to_prop; lia).
      rewrite Hz, N.add_0_r. guards; try reflexivity; lia.
Qed.

Lemma claimTimeout_finalized st msg id :
  terminal (state (getTask st id)) = true ->
  claimTimeout this st msg id = Err TaskAlreadyFinalized.
Proof.
  intros Hst. unfold claimTimeout.
  destruct (state (getTask st id)); simpl in *; congruence.
Qed.

Lemma claimTimeout_unwritten st msg id :
  getTask st id = zeroTask ->
  0 < timestamp msg ->
  claimTimeout this st msg id
  = match safeTransfer (mnee st) this 0 0 with
    | Some ledger =>
        Ok (mkState ledger (<[id := set_state zeroTask REFUNDED]> (tasks st))
              (nextTaskId st),
            [TaskRefunded id 0 0 0])
    | None => Err TokenRevert
    end.
Proof.
  intros Hz Hnow. rewrite claimTimeout_spec; rewrite Hz; simpl;
    try reflexivity; try discriminate; assumption.
Qed.

End Guards.

(** ** The storage invariant *)

Section Invariant.

Context {L : Type} `{Token : IERC20 L}.
Variable keccak256 : bytes -> bytes32.
Variable this : address.

Lemma consistent_init (ledger : L) : consistent (init ledger).
Proof.
  intros id. split.
  - simpl. lia.
  - intros _. left. reflexivity.
Qed.

Lemma never_created_not_committed t : never_created t -> state t <> COMMITTED.
Proof. intros [-> | ->]; discriminate. Qed.

Lemma never_created_deadline t : never_created t -> deadline t = 0.
Proof. intros [-> | ->]; reflexivity. Qed.

(** A task in state COMMITTED has been created. *)
Lemma committed_created (st : State L) id :
  consistent st -> state (getTask st id) = COMMITTED -> id < nextTaskId st.
Proof.
  intros Hc Hs. destruct (N.lt_ge_cases id (nextTaskId st)) as [|Hge]; [done|].
  apply Hc, never_created_not_committed in Hge. contradiction.
Qed.

(** Storing a record at [id] keeps the invariant when the record fits
    the side of [nextTaskId] that [id] is on. *)
Lemma consistent_store (st : State L) (ledger : L) id t :
  consistent st ->
  (id < nextTaskId st -> created_ok t) ->
  (nextTaskId st <= id -> never_created t) ->
  consistent (mkState ledger (<[id := t]> (tasks st)) (nextTaskId st)).
Proof.
  intros Hc Hlt Hge j. simpl.
  rewrite (getTask_insert (mnee st) ledger _ (nextTaskId st)).
  destruct (decide (id = j)) as [<- | Hne].
  - split; assumption.
  - destruct st; apply Hc.
Qed.

Lemma consistent_step st s : consistent st -> consistent (step keccak256 this st s).
Proof.
  intros Hc. destruct s as [msg c | ledger]; simpl.
  2: { intros j. destruct st; apply Hc. }
  destruct (call keccak256 this st msg c) as [[st' ev]|] eqn:E; [|exact Hc].
  destruct c as [i o s a b d | id h | id out salt | id | id]; simpl in E.
  - destruct (createTask _ _ _ _ _ _ _ _ _ _) as [[[s1 n1] e1]|] eqn:E1;
      simpl in E; inversion E; subst; clear E.
    apply createTask_Ok in E1 as (_ & Ha & Hfit & Hb & Hd & -> & l & _ & -> & _).
    rewrite bond_floor in Hb.
    intros j. simpl.
    rewrite (getTask_insert (mnee st) l _ (nextTaskId st)).
    destruct (decide (nextTaskId st = j)) as [<- | Hne].
    + split; [intros _ | lia].
      unfold created_ok; simpl. unfold REVEAL_WINDOW in *.
      repeat split; try lia; discriminate.
    + destruct (Hc j) as [H1 H2]. destruct st; simpl in *.
      split; intros; [apply H1 | apply H2]; lia.
  - apply commit_Ok in E as (Hs & Hd & Ht & l & _ & -> & _).
    apply consistent_store; [exact Hc | |].
    + intros Hlt. destruct (Hc id) as [(Ha & Hfit & Hb & Hdl & _ & _) _]; [done|].
      unfold created_ok; simpl. repeat split; try assumption; try lia; discriminate.
    + intros Hge. apply Hc, never_created_deadline in Hge.
      unfold REVEAL_WINDOW in *. lia.
  - apply reveal_Ok in E as (_ & Hs & _ & _ & _ & _ & l & _ & -> & _).
    apply consistent_store; [exact Hc | |].
    + intros Hlt. destruct (Hc id) as [(Ha & Hfit & Hb & Hdl & _ & _) _]; [done|].
      unfold created_ok; simpl. repeat split; try assumption; discriminate.
    + intros Hge. apply Hc, never_created_not_committed in Hge. contradiction.
  - apply expireCommit_Ok in E as (Hs & _ & _ & l & _ & -> & _).
    apply consistent_store; [exact Hc | |].
    + intros Hlt. destruct (Hc id) as [(Ha & Hfit & Hb & Hdl & _ & _) _]; [done|].
      unfold created_ok; simpl. repeat split; try assumption; discriminate.
    + intros Hge. apply Hc, never_created_not_committed in Hge. contradiction.
  - apply claimTimeout_Ok in E as (Hs & _ & _ & l & _ & -> & _).
    apply consistent_store; [exact Hc | |].
    + intros Hlt. destruct (Hc id) as [(Ha & Hfit & Hb & Hdl & _ & _) _]; [done|].
      unfold created_ok; simpl. repeat split; try assumption; discriminate.
    + intros Hge. apply Hc in Hge. destruct Hge as [Hz | Hz]; rewrite Hz in *.
      * right. reflexivity.
      * simpl in Hs. destruct Hs; discriminate.
Qed.

Lemma consistent_run st trace :
  consistent st -> consistent (run keccak256 this st trace).
Proof.
  revert st. induction trace as [|s rest IH]; intros st Hc; simpl.
  - exact Hc.
  - apply IH, consistent_step, Hc.
Qed.

Lemma consistent_reachable ledger trace :
  consistent (run keccak256 this (init ledger) trace).
Proof. apply consistent_run, consistent_init. Qed.

End Invariant.

(** ** What one step does to one task *)

Section Steps.

Context {L : Type} `{Token : IERC20 L}.
Variable keccak256 : bytes -> bytes32.
Variable this : address.

Lemma nextTaskId_step st s : nextTaskId st <= nextTaskId (step keccak256 this st s).
Proof.
  destruct s as [msg c | ledger]; simpl; [|lia].
  destruct (call keccak256 this st msg c) as [[st' ev]|] eqn:E; [|lia].
  destruct c as [i o s a b d | id h | id out salt | id | id]; simpl in E.
  - destruct (createTask _ _ _ _ _ _ _ _ _ _) as [[[s1 n1] e1]|] eqn:E1;
      simpl in E; inversion E; subst; clear E.
    apply createTask_Ok in E1 as (_ & _ & _ & _ & _ & -> & l & _ & -> & _).
    simpl. lia.
  - apply commit_Ok in E as (_ & _ & _ & l & _ & -> & _). simpl. lia.
  - apply reveal_Ok in E as (_ & _ & _ & _ & _ & _ & l & _ & -> & _). simpl. lia.
  - apply expireCommit_Ok in E as (_ & _ & _ & l & _ & -> & _). simpl. lia.
  - apply claimTimeout_Ok in E as (_ & _ & _ & l & _ & -> & _). simpl. lia.
Qed.

Lemma nextTaskId_run st trace : nextTaskId st <= nextTaskId (run keccak256 this st trace).
Proof.
  revert st. induction trace as [|s rest IH]; intros st; simpl; [lia|].
  pose proof (nextTaskId_step st s). pose proof (IH (step keccak256 this st s)). lia.
Qed.

(** The record of a created task changes only by a successful commit,
    reveal, expireCommit or claimTimeout on that very task. *)
Lemma step_task st s id :
  id < nextTaskId st ->
  let t := getTask st id in
  let t' := getTask (step keccak256 this st s) id in
  (t' = t
   /\ is_commit id s && succeeds keccak256 this st s = false
   /\ is_settlement id s && succeeds keccak256 this st s = false)
  \/ (exists msg h,
        s = Tx msg (Commit id h) /\ succeeds keccak256 this st s = true
        /\ state t = OPEN
        /\ timestamp msg + REVEAL_WINDOW < deadline t
        /\ t' = set_commitment (set_state t COMMITTED) (sender msg) h
                  (timestamp msg + REVEAL_WINDOW))
  \/ (exists msg out salt,
        s = Tx msg (Reveal id out salt) /\ succeeds keccak256 this st s = true
        /\ state t = COMMITTED /\ t' = set_state t COMPLETED)
  \/ (exists msg,
        s = Tx msg (ExpireCommit id) /\ succeeds keccak256 this st s = true
        /\ state t = COMMITTED /\ t' = set_commitment (set_state t OPEN) 0 0 0)
  \/ (exists msg,
        s = Tx msg (ClaimTimeout id) /\ succeeds keccak256 this st s = true
        /\ (state t = OPEN \/ state t = COMMITTED) /\ t' = set_state t REFUNDED).
Proof.
  intros Hid t t'. subst t t'.
  destruct s as [msg c | ledger].
  2: { left. simpl. auto. }
  unfold succeeds, step.
  destruct (call keccak256 this st msg c) as [[st' ev]|] eqn:E.
  2: { left. simpl. rewrite !andb_false_r. auto. }
  destruct c as [i o s a b d | id' h | id' out salt | id' | id']; simpl in E.
  - left.
    destruct (createTask _ _ _ _ _ _ _ _ _ _) as [[[s1 n1] e1]|] eqn:E1;
      simpl in E; inversion E; subst; clear E.
    apply createTask_Ok in E1 as (_ & _ & _ & _ & _ & -> & l & _ & -> & _).
    rewrite (getTask_insert_ne (mnee st) l _ (nextTaskId st)) by lia.
    destruct st; auto.
  - apply commit_Ok in E as (Hs & _ & Ht & l & _ & -> & _).
    destruct (decide (id' = id)) as [-> | Hne].
    + right; left. exists msg, h. rewrite getTask_insert_eq. auto.
    + left. rewrite (getTask_insert_ne (mnee st) l _ (nextTaskId st)) by done.
      simpl. rewrite (proj2 (N.eqb_neq id' id)) by done. destruct st; auto.
  - apply reveal_Ok in E as (_ & Hs & _ & _ & _ & _ & l & _ & -> & _).
    destruct (decide (id' = id)) as [-> | Hne].
    + right; right; left. exists msg, out, salt. rewrite getTask_insert_eq. auto.
    + left. rewrite (getTask_insert_ne (mnee st) l _ (nextTaskId st)) by done.
      simpl. rewrite (proj2 (N.eqb_neq id' id)) by done. destruct st; auto.
  - apply expireCommit_Ok in E as (Hs & _ & _ & l & _ & -> & _).
    destruct (decide (id' = id)) as [-> | Hne].
    + right; right; right; left. exists msg. rewrite getTask_insert_eq. auto.
    + left. rewrite (getTask_insert_ne (mnee st) l _ (nextTaskId st)) by done.
      simpl. rewrite (proj2 (N.eqb_neq id' id)) by done. destruct st; auto.
  - apply claimTimeout_Ok in E as (Hs & _ & _ & l & _ & -> & _).
    destruct (decide (id' = id)) as [-> | Hne].
    + right; right; right; right. exists msg. rewrite getTask_insert_eq. auto.
    + left. rewrite (getTask_insert_ne (mnee st) l _ (nextTaskId st)) by done.
      simpl. rewrite (proj2 (N.eqb_neq id' id)) by done. destruct st; auto.
Qed.

Lemma is_payout_settlement id (s : Step L) :
  is_payout id s = true -> is_settlement id s = true.
Proof. destruct s as [msg [] | ]; simpl; congruence. Qed.

(** A terminal task is left alone by every step. *)
Lemma terminal_step st s id :
  id < nextTaskId st ->
  terminal (state (getTask st id)) = true ->
  getTask (step keccak256 this st s) id = getTask st id
  /\ is_settlement id s && succeeds keccak256 this st s = false.
Proof.
  intros Hid Hterm.
  destruct (step_task st s id Hid)
    as [(H & _ & H') | [(m & h & _ & _ & Hs & _) | [(m & o & sa & _ & _ & Hs & _)
       | [(m & _ & _ & Hs & _) | (m & _ & _ & Hs & _)]]]];
    try (split; assumption);
    try (rewrite Hs in Hterm; discriminate).
  destruct Hs as [Hs | Hs]; rewrite Hs in Hterm; discriminate.
Qed.

Lemma terminal_run st trace id :
  id < nextTaskId st ->
  terminal (state (getTask st id)) = true ->
  getTask (run keccak256 this st trace) id = getTask st id
  /\ settlements keccak256 this id st trace = 0%nat
  /\ payouts keccak256 this id st trace = 0%nat.
Proof.
  revert st. induction trace as [|s rest IH]; intros st Hid Hterm; simpl.
  - auto.
  - destruct (terminal_step st s id Hid Hterm) as [Hsame Hno].
    destruct (IH (step keccak256 this st s)) as (H1 & H2 & H3).
    + pose proof (nextTaskId_step st s). lia.
    + by rewrite Hsame.
    + split; [by rewrite H1|].
      unfold settlements, payouts in *. simpl.
      rewrite H2, H3, Hno. simpl. split; [reflexivity|].
      destruct (is_payout id s) eqn:Hp; [|reflexivity].
      apply is_payout_settlement in Hp. rewrite Hp in Hno. simpl in Hno.
      rewrite Hno. reflexivity.
Qed.

End Steps.

(** ** Counting commitments, settlements and payouts *)

Section Counting.

Context {L : Type} `{Token : IERC20 L}.
Variable keccak256 : bytes -> bytes32.
Variable this : address.

Lemma commitment_balance_step st s id :
  id < nextTaskId st ->
  ((if is_settlement id s && succeeds keccak256 this st s
       && bool_decide (state (getTask st id) = COMMITTED) then 1 else 0)
   + committed_now (step keccak256 this st s) id
   = (if is_commit id s && succeeds keccak256 this st s then 1 else 0)
     + committed_now st id)%nat.
Proof.
  intros Hid. unfold committed_now.
  destruct (step_task keccak256 this st s id Hid)
    as [(H & Hc & Hs) | [(m & h & -> & Hok & Hs & _ & H)
       | [(m & o & sa & -> & Hok & Hs & H)
       | [(m & -> & Hok & Hs & H) | (m & -> & Hok & Hs & H)]]]];
    rewrite H; clear H.
  - rewrite Hc, Hs. reflexivity.
  - rewrite Hok. simpl. rewrite N.eqb_refl, Hs. reflexivity.
  - rewrite Hok. simpl. rewrite N.eqb_refl, Hs. reflexivity.
  - rewrite Hok. simpl. rewrite N.eqb_refl, Hs. reflexivity.
  - rewrite Hok. simpl. rewrite N.eqb_refl.
    destruct Hs as [Hs | Hs]; rewrite Hs; reflexivity.
Qed.

(** Every successful commit is matched by exactly one settlement, or is
    still pending. *)
Lemma commitment_balance st trace id :
  id < nextTaskId st ->
  (settlements keccak256 this id st trace
   + committed_now (run keccak256 this st trace) id
   = commitments keccak256 this id st trace + committed_now st id)%nat.
Proof.
  revert st. induction trace as [|s rest IH]; intros st Hid.
  - reflexivity.
  - unfold settlements, commitments in *. simpl.
    pose proof (commitment_balance_step st s id Hid) as Hstep.
    assert (id < nextTaskId (step keccak256 this st s)) as Hid'
      by (pose proof (nextTaskId_step keccak256 this st s); lia).
    specialize (IH _ Hid'). lia.
Qed.

Lemma payout_step st s id :
  id < nextTaskId st ->
  is_payout id s && succeeds keccak256 this st s = true ->
  terminal (state (getTask (step keccak256 this st s) id)) = true.
Proof.
  intros Hid Hp.
  destruct (step_task keccak256 this st s id Hid)
    as [(_ & _ & Hs) | [(m & h & -> & _) | [(m & o & sa & -> & _ & _ & H)
       | [(m & -> & _) | (m & -> & _ & _ & H)]]]];
    try (rewrite H; reflexivity);
    try (simpl in Hp; discriminate).
  apply andb_true_iff in Hp as [Hp Hok].
  apply is_payout_settlement in Hp. rewrite Hp, Hok in Hs. discriminate.
Qed.

(** The escrowed amount of a task is paid out at most once. *)
Lemma payouts_once st trace id :
  id < nextTaskId st ->
  (payouts keccak256 this id st trace <= 1)%nat.
Proof.
  revert st. induction trace as [|s rest IH]; intros st Hid.
  - unfold payouts. simpl. lia.
  - assert (id < nextTaskId (step keccak256 this st s)) as Hid'
      by (pose proof (nextTaskId_step keccak256 this st s); lia).
    unfold payouts in *. simpl.
    destruct (is_payout id s && succeeds keccak256 this st s) eqn:Hp.
    + apply payout_step in Hp; [|exact Hid].
      destruct (terminal_run keccak256 this _ rest id Hid' Hp) as (_ & _ & H0).
      unfold payouts in H0. rewrite H0. lia.
    + specialize (IH _ Hid'). lia.
Qed.

(** A slot that enters the range of created ids holds an OPEN task. *)
Lemma fresh_step st s id :
  nextTaskId st <= id ->
  id < nextTaskId (step keccak256 this st s) ->
  state (getTask (step keccak256 this st s) id) = OPEN.
Proof.
  intros Hge Hlt. destruct s as [msg c | ledger]; simpl in *; [|lia].
  destruct (call keccak256 this st msg c) as [[st' ev]|] eqn:E; [|lia].
  destruct c as [i o s a b d | id' h | id' out salt | id' | id']; simpl in E.
  - destruct (createTask _ _ _ _ _ _ _ _ _ _) as [[[s1 n1] e1]|] eqn:E1;
      simpl in E; inversion E; subst; clear E.
    apply createTask_Ok in E1 as (_ & _ & _ & _ & _ & -> & l & _ & -> & _).
    simpl in Hlt. assert (id = nextTaskId st) as -> by lia.
    rewrite getTask_insert_eq. reflexivity.
  - apply commit_Ok in E as (_ & _ & _ & l & _ & -> & _). simpl in Hlt. lia.
  - apply reveal_Ok in E as (_ & _ & _ & _ & _ & _ & l & _ & -> & _). simpl in Hlt. lia.
  - apply expireCommit_Ok in E as (_ & _ & _ & l & _ & -> & _). simpl in Hlt. lia.
  - apply claimTimeout_Ok in E as (_ & _ & _ & l & _ & -> & _). simpl in Hlt. lia.
Qed.

(** The reveal deadline of a committed task is the time of the last
    successful commit plus the reveal window. *)
Lemma commitTime_run st trace id acc :
  consistent st ->
  (state (getTask st id) = COMMITTED ->
   exists t, acc = Some t /\ revealDeadline (getTask st id) = t + REVEAL_WINDOW) ->
  let st' := run keccak256 this st trace in
  state (getTask st' id) = COMMITTED ->
  exists t, commitTime keccak256 this id acc st trace = Some t
            /\ revealDeadline (getTask st' id) = t + REVEAL_WINDOW.
Proof.
  revert st acc. induction trace as [|s rest IH]; intros st acc Hc Hacc; simpl.
  - exact Hacc.
  - apply IH; [by apply consistent_step|].
    intros Hs'.
    assert (id < nextTaskId (step keccak256 this st s)) as Hid'.
    { eapply committed_created; [|exact Hs']. by apply consistent_step. }
    destruct (N.lt_ge_cases id (nextTaskId st)) as [Hid | Hge].
    2: { rewrite (fresh_step st s id Hge Hid') in Hs'. discriminate. }
    destruct (step_task keccak256 this st s id Hid)
      as [(H & Hcm & _) | [(m & h & -> & Hok & _ & _ & H)
         | [(m & o & sa & -> & _ & _ & H)
         | [(m & -> & _ & _ & H) | (m & -> & _ & _ & H)]]]];
      rewrite H in *; clear H; try discriminate.
    + destruct s as [m c | l]; [|by apply Hacc].
      rewrite Hcm. by apply Hacc.
    + simpl (is_commit _ _). rewrite N.eqb_refl, Hok. simpl. eauto.
Qed.

End Counting.

(** ** The ledger *)

Section LedgerFacts.

Import Ledger.

Lemma balanceOf_move l from to v x :
  from <> to ->
  balanceOf (move l from to v) x
  = if decide (x = to) then balanceOf l to + v
    else if decide (x = from) then balanceOf l from - v
    else balanceOf l x.
Proof.
  intros Hne. unfold move, balanceOf. simpl.
  destruct (decide (x = to)) as [-> | Hto].
  - rewrite lookup_insert_eq. simpl.
    rewrite lookup_insert_ne by done. reflexivity.
  - rewrite lookup_insert_ne by done.
    destruct (decide (x = from)) as [-> | Hfrom].
    + by rewrite lookup_insert_eq.
    + by rewrite lookup_insert_ne.
Qed.

Lemma transfer_balances l from to v :
  from <> to ->
  v <= balanceOf l from ->
  exists l',
    transfer l from to v = Some l'
    /\ balanceOf l' from = balanceOf l from - v
    /\ balanceOf l' to = balanceOf l to + v
    /\ (forall x, x <> from -> x <> to -> balanceOf l' x = balanceOf l x)
    /\ (forall o s, allowance l' o s = allowance l o s).
Proof.
  intros Hne Hv. unfold transfer.
  destruct (balanceOf l from <? v) eqn:E; to_prop; [lia|].
  eexists. split; [reflexivity|].
  repeat split.
  - rewrite balanceOf_move by done.
    destruct (decide (from = to)); [contradiction|].
    destruct (decide (from = from)); [reflexivity|contradiction].
  - rewrite balanceOf_move by done.
    destruct (decide (to = to)); [reflexivity|contradiction].
  - intros x Hx1 Hx2. rewrite balanceOf_move by done.
    destruct (decide (x = to)); [contradiction|].
    destruct (decide (x = from)); [contradiction|reflexivity].
Qed.

Lemma transferFrom_balances l spender from to v :
  from <> to ->
  v <= allowance l from spender ->
  v <= balanceOf l from ->
  exists l',
    transferFrom l spender from to v = Some l'
    /\ balanceOf l' from = balanceOf l from - v
    /\ balanceOf l' to = balanceOf l to + v
    /\ (forall x, x <> from -> x <> to -> balanceOf l' x = balanceOf l x)
    /\ (forall o s, (o, s) <> (from, spender) -> allowance l' o s = allowance l o s).
Proof.
  intros Hne Ha Hv. unfold transferFrom.
  destruct (allowance l from spender <? v) eqn:E; to_prop; [lia|].
  destruct (transfer_balances
              (mk (balances l)
                  (<[(from, spender) := allowance l from spender - v]> (allowances l)))
              from to v Hne Hv) as (l' & Ht & H1 & H2 & H3 & H4).
  exists l'. split; [exact Ht|]. repeat split; try assumption.
  intros o s Hos. rewrite H4. unfold allowance at 1. simpl.
  by rewrite lookup_insert_ne.
Qed.

End LedgerFacts.

(** ** The happy path on the ledger *)

Section HappyPath.

Variable keccak256 : bytes -> bytes32.
Variable this : address.

Lemma createTask_spec {L : Type} `{Token : IERC20 L}
    (st : State L) msg input oh sh amt bond dl :
  N.of_nat (length input) <= MAX_INPUT_SIZE ->
  0 < amt ->
  amt * MIN_BOND_BPS <= MAX_UINT256 ->
  amt / 10 <= bond ->
  timestamp msg + REVEAL_WINDOW < dl ->
  dl <= MAX_UINT256 ->
  nextTaskId st + 1 <= MAX_UINT256 ->
  createTask keccak256 this st msg input oh sh amt bond dl
  = match safeTransferFrom (mnee st) this (sender msg) this amt with
    | Some ledger =>
        Ok (mkState ledger
              (<[nextTaskId st := mkTask (sender msg) (keccak256 input) oh sh amt bond dl
                                         OPEN 0 0 0]> (tasks st))
              (nextTaskId st + 1),
            nextTaskId st,
            [TaskCreated (nextTaskId st) (sender msg) input (keccak256 input)
                         oh sh amt bond dl])
    | None => Err TokenRevert
    end.
Proof.
  intros Hlen Hamt Hfit Hbond Hdl Hmax Hnext. rewrite <- bond_floor in Hbond.
  unfold createTask. guards; try reflexivity; lia.
Qed.

(** Scenario A: create(amount = 10, bond = 1, deadline = now + 3600),
    commit(hash(hash(X), S)), reveal(X, S), by a requester [r] and a
    worker [w] who hold and have approved the tokens they need. *)
Lemma happy_path (r w : address) (l0 : Ledger.t) (now t1 t2 : N)
    (input X : bytes) (S spec : bytes32) :
  r <> this -> w <> this -> r <> w ->
  10 <= Ledger.balanceOf l0 r -> 10 <= Ledger.allowance l0 r this ->
  1 <= Ledger.balanceOf l0 w -> 1 <= Ledger.allowance l0 w this ->
  N.of_nat (length input) <= 4096 -> N.of_nat (length X) <= 4096 ->
  now + 3600 <= MAX_UINT256 ->
  t1 + 600 < now + 3600 ->
  t2 <= t1 + 600 ->
  let create := Tx (mkMsg r now)
                   (CreateTask input (keccak256 X) spec 10 1 (now + 3600)) in
  let commit := Tx (mkMsg w t1)
                   (Commit 0 (keccak256 (abi_encode (keccak256 X) S))) in
  let reveal := Tx (mkMsg w t2) (Reveal 0 X S) in
  let st2 := run keccak256 this (init l0) [create; commit] in
  let st3 := run keccak256 this (init l0) [create; commit; reveal] in
  succeeds keccak256 this st2 reveal = true
  /\ state (getTask st2 0) = COMMITTED
  /\ state (getTask st3 0) = COMPLETED
  /\ Ledger.balanceOf (mnee st3) w = Ledger.balanceOf (mnee st2) w + 11
  /\ Ledger.balanceOf (mnee st3) w = Ledger.balanceOf l0 w + 10
  /\ Ledger.balanceOf (mnee st3) r + 10 = Ledger.balanceOf l0 r
  /\ Ledger.balanceOf (mnee st3) this = Ledger.balanceOf l0 this.
Proof.
  intros Hr Hw Hrw Hbr Har Hbw Haw Hlen HlenX Hnow Ht1 Ht2.
  intros create commit0 reveal0 st2 st3.
  (* createTask *)
  destruct (transferFrom_balances l0 this r this 10 Hr Har Hbr)
    as (l1 & E1 & B1r & B1t & B1o & A1).
  set (task0 := mkTask r (keccak256 input) (keccak256 X) spec 10 1 (now + 3600)
                       OPEN 0 0 0).
  assert (step keccak256 this (init l0) create = mkState l1 (<[0 := task0]> ∅) 1)
    as S1.
  { unfold step, create, call.
    rewrite createTask_spec; simpl; unfold REVEAL_WINDOW; try lia;
      try exact Hlen; try (vm_compute; discriminate).
    change (safeTransferFrom l0 this r this 10)
      with (Ledger.transferFrom l0 this r this 10).
    rewrite E1. reflexivity. }
  (* commit *)
  set (st1 := mkState l1 (<[0 := task0]> ∅) 1) in *.
  assert (getTask st1 0 = task0) as G1 by apply getTask_insert_eq.
  destruct (transferFrom_balances l1 this w this 1 Hw) as (l2 & E2 & B2w & B2t & B2o & A2).
  { rewrite A1 by congruence. exact Haw. }
  { rewrite B1o by congruence. exact Hbw. }
  set (task1 := mkTask r (keccak256 input) (keccak256 X) spec 10 1 (now + 3600)
                       COMMITTED w (keccak256 (abi_encode (keccak256 X) S))
                       (t1 + REVEAL_WINDOW)).
  assert (step keccak256 this st1 commit0
          = mkState l2 (<[0 := task1]> (<[0 := task0]> ∅)) 1) as S2.
  { unfold step, commit0, call.
    rewrite commit_spec; rewrite ?G1; simpl; unfold REVEAL_WINDOW; try lia;
      try reflexivity.
    change (safeTransferFrom l1 this w this 1)
      with (Ledger.transferFrom l1 this w this 1).
    rewrite E2. reflexivity. }
  assert (st2 = mkState l2 (<[0 := task1]> (<[0 := task0]> ∅)) 1) as ->.
  { unfold st2.
    change (run keccak256 this (init l0) [create; commit0])
      with (step keccak256 this (step keccak256 this (init l0) create) commit0).
    rewrite S1. exact S2. }
  (* reveal *)
  set (s2 := mkState l2 (<[0 := task1]> (<[0 := task0]> ∅)) 1) in *.
  assert (getTask s2 0 = task1) as G2 by apply getTask_insert_eq.
  destruct (transfer_balances l2 this w 11) as (l3 & E3 & B3t & B3w & B3o & A3).
  { congruence. }
  { rewrite B2t, B1t. lia. }
  assert (reveal keccak256 this s2 (mkMsg w t2) 0 X S
          = Ok (mkState l3 (<[0 := set_state task1 COMPLETED]> (tasks s2)) 1,
                [TaskCompleted 0 w X])) as R3.
  { rewrite reveal_spec; rewrite ?G2; simpl; unfold REVEAL_WINDOW; try lia;
      try reflexivity; try exact HlenX; try (vm_compute; discriminate).
    change (10 + 1) with 11.
    rewrite E3. reflexivity. }
  assert (st3 = mkState l3 (<[0 := set_state task1 COMPLETED]> (tasks s2)) 1) as ->.
  { unfold st3.
    change (run keccak256 this (init l0) [create; commit0; reveal0])
      with (step keccak256 this
              (step keccak256 this (step keccak256 this (init l0) create) commit0)
              reveal0).
    rewrite S1, S2. unfold step, reveal0, call. rewrite R3. reflexivity. }
  split. { unfold succeeds, reveal0, call. rewrite R3. reflexivity. }
  split. { rewrite G2. reflexivity. }
  split. { rewrite getTask_insert_eq. reflexivity. }
  simpl mnee.
  assert (Ledger.balanceOf l2 w = Ledger.balanceOf l0 w - 1) as Hw2.
  { rewrite B2w. rewrite B1o by congruence. reflexivity. }
  assert (Ledger.balanceOf l3 r = Ledger.balanceOf l0 r - 10) as Hr3.
  { rewrite B3o by congruence. rewrite B2o by congruence. exact B1r. }
  repeat split; lia.
Qed.

End HappyPath.

(** ** Slots that were never created *)

Section NeverCreated.

Context {L : Type} `{Token : IERC20 L}.
Variable keccak256 : bytes -> bytes32.
Variable this : address.

Lemma pristine_step st s :
  rejects_zero_address L this ->
  consistent st -> pristine st -> pristine (step keccak256 this st s).
Proof.
  intros Hz Hc Hp id Hid.
  pose proof (nextTaskId_step keccak256 this st s) as Hmono.
  assert (nextTaskId st <= id) as Hge by lia.
  specialize (Hp id Hge).
  destruct s as [msg c | ledger]; simpl in *.
  2: { destruct st; exact Hp. }
  destruct (call keccak256 this st msg c) as [[st' ev]|] eqn:E; [|exact Hp].
  destruct c as [i o s a b d | id' h | id' out salt | id' | id']; simpl in E.
  - destruct (createTask _ _ _ _ _ _ _ _ _ _) as [[[s1 n1] e1]|] eqn:E1;
      simpl in E; inversion E; subst; clear E.
    apply createTask_Ok in E1 as (_ & _ & _ & _ & _ & -> & l & _ & -> & _).
    simpl in Hid.
    rewrite (getTask_insert_ne (mnee st) l _ (nextTaskId st)) by lia.
    destruct st; exact Hp.
  - apply commit_Ok in E as (Hs & Hd & _ & l & _ & -> & _).
    rewrite (getTask_insert (mnee st) l _ (nextTaskId st)).
    destruct (decide (id' = id)) as [-> | _]; [|destruct st; exact Hp].
    rewrite Hp in Hd. simpl in Hd. unfold REVEAL_WINDOW in Hd. lia.
  - apply reveal_Ok in E as (_ & Hs & _ & _ & _ & _ & l & _ & -> & _).
    rewrite (getTask_insert (mnee st) l _ (nextTaskId st)).
    destruct (decide (id' = id)) as [-> | _]; [|destruct st; exact Hp].
    rewrite Hp in Hs. discriminate.
  - apply expireCommit_Ok in E as (Hs & _ & _ & l & _ & -> & _).
    rewrite (getTask_insert (mnee st) l _ (nextTaskId st)).
    destruct (decide (id' = id)) as [-> | _]; [|destruct st; exact Hp].
    rewrite Hp in Hs. discriminate.
  - apply claimTimeout_Ok in E as (_ & _ & _ & l & Hl & -> & _).
    rewrite (getTask_insert (mnee st) l _ (nextTaskId st)).
    destruct (decide (id' = id)) as [-> | _]; [|destruct st; exact Hp].
    rewrite Hp in Hl. simpl in Hl. rewrite Hz in Hl. discriminate.
Qed.

Lemma pristine_reachable ledger trace :
  rejects_zero_address L this ->
  pristine (run keccak256 this (init ledger) trace).
Proof.
  intros Hz.
  assert (forall st, consistent st -> pristine st ->
                     pristine (run keccak256 this st trace)) as H.
  { induction trace as [|s rest IH]; intros st Hc Hp; simpl; [exact Hp|].
    apply IH; [by apply consistent_step | by apply pristine_step]. }
  apply H; [apply consistent_init|].
  intros id _. reflexivity.
Qed.

(** On a slot beyond [nextTaskId], commit fails in every reachable
    state. *)
Lemma commit_beyond_next ledger trace id msg h :
  let st := run keccak256 this (init ledger) trace in
  nextTaskId st <= id ->
  commit this st msg id h = Err Panic
  \/ commit this st msg id h = Err TaskNotOpen.
Proof.
  intros st Hid. subst st.
  destruct (consistent_reachable keccak256 this ledger trace id) as [_ Hn].
  destruct (Hn Hid) as [Hz | Hz].
  - left. by apply commit_unwritten.
  - right. apply commit_not_open. rewrite Hz. discriminate.
Qed.

End NeverCreated.

(** * The properties of the specification *)

Section Properties.

Context {L : Type} `{Token : IERC20 L}.
Variable keccak256 : bytes -> bytes32.
Variable this : address.

(** C1, as amended. For a created task: once it is COMPLETED or
    REFUNDED its record never changes again, and on every later state
    [expireCommit] fails with [TaskNotCommitted], [claimTimeout] with
    [TaskAlreadyFinalized], and [reveal] with [TaskNotCommitted] when
    the output is at most 4096 bytes and with [OutputTooLarge]
    otherwise (the size check comes first). In every run, the successful
    reveal, expireCommit and claimTimeout calls that found the task
    COMMITTED are as many as the successful commits that are no longer
    pending, so each commitment is settled by at most one of the three
    paths; and the escrowed amount is paid out (by reveal or by
    claimTimeout) at most once. *)
Theorem terminal_is_final st id :
  id < nextTaskId st ->
  (terminal (state (getTask st id)) = true ->
   forall trace,
     let st' := run keccak256 this st trace in
     getTask st' id = getTask st id
     /\ forall msg,
          (forall out salt,
             reveal keccak256 this st' msg id out salt
             = Err (if 4096 <? N.of_nat (length out)
                    then OutputTooLarge else TaskNotCommitted))
          /\ expireCommit this st' msg id = Err TaskNotCommitted
          /\ claimTimeout this st' msg id = Err TaskAlreadyFinalized)
  /\ (forall trace,
        (settlements keccak256 this id st trace
         + committed_now (run keccak256 this st trace) id
         = commitments keccak256 this id st trace + committed_now st id)%nat)
  /\ (forall trace,
        commitments keccak256 this id st trace = 0%nat ->
        (settlements keccak256 this id st trace <= 1)%nat)
  /\ (forall trace, (payouts keccak256 this id st trace <= 1)%nat).
Proof.
  intros Hid. split; [|split; [|split]].
  - intros Hterm trace st'.
    destruct (terminal_run keccak256 this st trace id Hid Hterm) as (Hsame & _).
    split; [exact Hsame|]. intros msg.
    assert (state (getTask st' id) <> COMMITTED) as Hnc.
    { unfold st'. rewrite Hsame. destruct (state (getTask st id)); discriminate. }
    repeat split.
    + intros out salt. by apply reveal_not_committed.
    + by apply expireCommit_not_committed.
    + apply claimTimeout_finalized. unfold st'. by rewrite Hsame.
  - intros trace. by apply commitment_balance.
  - intros trace H0.
    pose proof (commitment_balance keccak256 this st trace id Hid) as Hb.
    rewrite H0 in Hb. unfold committed_now in Hb.
    repeat destruct (bool_decide _) in Hb; lia.
  - intros trace. by apply payouts_once.
Qed.

(** C2, as amended. A successful [expireCommit] finds the task
    COMMITTED and leaves it OPEN with [committedWorker], [commitHash]
    and [revealDeadline] reset to zero. A successful [claimTimeout]
    leaves the task REFUNDED and keeps the three fields as they were,
    as a successful [reveal] does for a COMPLETED task. In every
    reachable state the three fields of an OPEN task are zero. *)
Theorem commitment_fields :
  (forall st msg id st' ev,
     expireCommit this st msg id = Ok (st', ev) ->
     state (getTask st id) = COMMITTED
     /\ state (getTask st' id) = OPEN
     /\ committedWorker (getTask st' id) = 0
     /\ commitHash (getTask st' id) = 0
     /\ revealDeadline (getTask st' id) = 0)
  /\ (forall st msg id st' ev,
        claimTimeout this st msg id = Ok (st', ev) ->
        state (getTask st' id) = REFUNDED
        /\ committedWorker (getTask st' id) = committedWorker (getTask st id)
        /\ commitHash (getTask st' id) = commitHash (getTask st id)
        /\ revealDeadline (getTask st' id) = revealDeadline (getTask st id))
  /\ (forall st msg id out salt st' ev,
        reveal keccak256 this st msg id out salt = Ok (st', ev) ->
        state (getTask st' id) = COMPLETED
        /\ committedWorker (getTask st' id) = committedWorker (getTask st id)
        /\ commitHash (getTask st' id) = commitHash (getTask st id)
        /\ revealDeadline (getTask st' id) = revealDeadline (getTask st id))
  /\ (forall ledger trace id,
        let st := run keccak256 this (init ledger) trace in
        state (getTask st id) = OPEN ->
        committedWorker (getTask st id) = 0
        /\ commitHash (getTask st id) = 0
        /\ revealDeadline (getTask st id) = 0).
Proof.
  split; [|split; [|split]].
  - intros st msg id st' ev H.
    apply expireCommit_Ok in H as (Hs & _ & _ & l & _ & -> & _).
    rewrite getTask_insert_eq. auto.
  - intros st msg id st' ev H.
    apply claimTimeout_Ok in H as (_ & _ & _ & l & _ & -> & _).
    rewrite getTask_insert_eq. auto.
  - intros st msg id out salt st' ev H.
    apply reveal_Ok in H as (_ & _ & _ & _ & _ & _ & l & _ & -> & _).
    rewrite getTask_insert_eq. auto.
  - intros ledger trace id st Hs.
    destruct (consistent_reachable keccak256 this ledger trace id) as [Hlt Hge].
    destruct (N.lt_ge_cases id (nextTaskId st)) as [Hid | Hid].
    + apply Hlt in Hid. apply Hid. exact Hs.
    + apply Hge in Hid. destruct Hid as [Hz | Hz]; unfold st; rewrite Hz; auto.
Qed.

(** C3. In every reachable state, a COMMITTED task has
    [revealDeadline = commitTime + 600], where [commitTime] is the time
    of the last successful commit to it, and [revealDeadline < deadline]
    strictly. A commit to a created OPEN task at a time
    [>= deadline - REVEAL_WINDOW] is rejected with [CommitWindowClosed],
    and a commit that succeeds at time [now] leaves
    [revealDeadline = now + 600 < deadline]. *)
Theorem reveal_deadline_before_deadline :
  (forall ledger trace id,
     let st := run keccak256 this (init ledger) trace in
     state (getTask st id) = COMMITTED ->
     exists commitTime',
       commitTime keccak256 this id None (init ledger) trace = Some commitTime'
       /\ revealDeadline (getTask st id) = commitTime' + 600
       /\ revealDeadline (getTask st id) < deadline (getTask st id))
  /\ (forall ledger trace id msg h,
        let st := run keccak256 this (init ledger) trace in
        id < nextTaskId st ->
        state (getTask st id) = OPEN ->
        deadline (getTask st id) - REVEAL_WINDOW <= timestamp msg ->
        commit this st msg id h = Err CommitWindowClosed)
  /\ (forall st msg id h st' ev,
        commit this st msg id h = Ok (st', ev) ->
        state (getTask st' id) = COMMITTED
        /\ revealDeadline (getTask st' id) = timestamp msg + 600
        /\ deadline (getTask st' id) = deadline (getTask st id)
        /\ revealDeadline (getTask st' id) < deadline (getTask st' id)).
Proof.
  split; [|split].
  - intros ledger trace id st Hs.
    destruct (commitTime_run keccak256 this (init ledger) trace id None)
      as (t & Ht & Hrd); [apply consistent_init | discriminate | exact Hs |].
    exists t. split; [exact Ht|]. split; [exact Hrd|].
    pose proof (consistent_reachable keccak256 this ledger trace) as Hc.
    pose proof (committed_created _ id Hc Hs) as Hid.
    apply Hc in Hid. apply Hid. exact Hs.
  - intros ledger trace id msg h st Hid Hs Hd.
    apply commit_window_closed; try assumption.
    destruct (consistent_reachable keccak256 this ledger trace id) as [Hlt _].
    destruct (Hlt Hid) as (_ & _ & _ & H & _). fold st in H. lia.
  - intros st msg id h st' ev H.
    apply commit_Ok in H as (_ & _ & Ht & l & _ & -> & _).
    rewrite getTask_insert_eq. simpl. auto.
Qed.

End Properties.

Section Payments.

Context {L : Type} `{Token : IERC20 L}.
Variable keccak256 : bytes -> bytes32.
Variable this : address.

(** C4, as amended. On a COMMITTED task, a reveal by the committed
    worker, no later than [revealDeadline], with an output of at most
    4096 bytes whose hash matches both the commitment and the expected
    output, makes the task COMPLETED and pays [amount + bondAmount] to
    the worker in one token transfer (the call reverts only if the
    token refuses that transfer). [reveal] is the only call whose
    transfer is addressed to the committed worker: createTask and
    commit only pull tokens from their caller, expireCommit pays the
    bond, and claimTimeout the refund, to the recorded requester. But
    [commit] does not compare its caller with the requester: the
    requester can commit to their own task, and expireCommit and
    claimTimeout then hand the bond back to the committed worker, who
    is the requester. On the ledger, scenario A ends with the task
    COMPLETED, the worker's balance 11 above what it was before the
    reveal (10 above the start, the bond of 1 having been locked at
    commit) and the requester 10 below the start. *)
Theorem reveal_pays_worker st msg id out salt :
  let t := getTask st id in
  state t = COMMITTED ->
  sender msg = committedWorker t ->
  timestamp msg <= revealDeadline t ->
  N.of_nat (length out) <= 4096 ->
  keccak256 (abi_encode (keccak256 out) salt) = commitHash t ->
  keccak256 out = expectedOutputHash t ->
  amount t + bondAmount t <= MAX_UINT256 ->
  reveal keccak256 this st msg id out salt
  = match safeTransfer (mnee st) this (committedWorker t)
            (amount t + bondAmount t) with
    | Some ledger =>
        Ok (mkState ledger
              (<[id := mkTask (requester t) (inputHash t) (expectedOutputHash t)
                              (specHash t) (amount t) (bondAmount t) (deadline t)
                              COMPLETED (committedWorker t) (commitHash t)
                              (revealDeadline t)]> (tasks st))
              (nextTaskId st),
            [TaskCompleted id (committedWorker t) out])
    | None => Err TokenRevert
    end
  /\ (forall st0 msg0 c st' ev,
        call keccak256 this st0 msg0 c = Ok (st', ev) ->
        (exists v,
           ((exists i o s b d, c = CreateTask i o s v b d)
            \/ (exists id0 h, c = Commit id0 h))
           /\ safeTransferFrom (mnee st0) this (sender msg0) this v = Some (mnee st'))
        \/ (exists id0 out0 salt0,
              c = Reveal id0 out0 salt0
              /\ state (getTask st0 id0) = COMMITTED
              /\ sender msg0 = committedWorker (getTask st0 id0)
              /\ safeTransfer (mnee st0) this (committedWorker (getTask st0 id0))
                   (amount (getTask st0 id0) + bondAmount (getTask st0 id0))
                 = Some (mnee st'))
        \/ (exists id0,
              c = ExpireCommit id0
              /\ state (getTask st0 id0) = COMMITTED
              /\ safeTransfer (mnee st0) this (requester (getTask st0 id0))
                   (bondAmount (getTask st0 id0))
                 = Some (mnee st'))
        \/ (exists id0,
              c = ClaimTimeout id0
              /\ safeTransfer (mnee st0) this (requester (getTask st0 id0))
                   (refund (getTask st0 id0))
                 = Some (mnee st')))
  /\ (forall st0 msg0 id0 h,
        let t0 := getTask st0 id0 in
        state t0 = OPEN ->
        timestamp msg0 + 600 < deadline t0 ->
        deadline t0 <= MAX_UINT256 ->
        sender msg0 = requester t0 ->
        commit this st0 msg0 id0 h
        = match safeTransferFrom (mnee st0) this (requester t0) this
                  (bondAmount t0) with
          | Some ledger =>
              Ok (mkState ledger
                    (<[id0 := mkTask (requester t0) (inputHash t0)
                                     (expectedOutputHash t0) (specHash t0) (amount t0)
                                     (bondAmount t0) (deadline t0)
                                     COMMITTED (requester t0) h
                                     (timestamp msg0 + 600)]> (tasks st0))
                    (nextTaskId st0),
                  [TaskCommitted id0 (requester t0) h (bondAmount t0)
                                 (timestamp msg0 + 600)])
          | None => Err TokenRevert
          end)
  /\ (forall st0 msg0 id0,
        let t0 := getTask st0 id0 in
        state t0 = COMMITTED ->
        committedWorker t0 = requester t0 ->
        revealDeadline t0 < timestamp msg0 ->
        (timestamp msg0 <= deadline t0 ->
         expireCommit this st0 msg0 id0
         = match safeTransfer (mnee st0) this (committedWorker t0)
                   (bondAmount t0) with
           | Some ledger =>
               Ok (mkState ledger
                     (<[id0 := mkTask (requester t0) (inputHash t0)
                                      (expectedOutputHash t0) (specHash t0)
                                      (amount t0) (bondAmount t0) (deadline t0)
                                      OPEN 0 0 0]> (tasks st0))
                     (nextTaskId st0),
                   [CommitExpired id0 (committedWorker t0) (bondAmount t0)])
           | None => Err TokenRevert
           end)
        /\ (deadline t0 < timestamp msg0 ->
            amount t0 + bondAmount t0 <= MAX_UINT256 ->
            claimTimeout this st0 msg0 id0
            = match safeTransfer (mnee st0) this (committedWorker t0)
                      (amount t0 + bondAmount t0) with
              | Some ledger =>
                  Ok (mkState ledger (<[id0 := set_state t0 REFUNDED]> (tasks st0))
                        (nextTaskId st0),
                      [TaskRefunded id0 (requester t0) (amount t0) (bondAmount t0)])
              | None => Err TokenRevert
              end))
  /\ (forall (r w : address) (l0 : Ledger.t) (now t1 t2 : N)
             (input X : bytes) (S spec : bytes32),
        r <> this -> w <> this -> r <> w ->
        10 <= Ledger.balanceOf l0 r -> 10 <= Ledger.allowance l0 r this ->
        1 <= Ledger.balanceOf l0 w -> 1 <= Ledger.allowance l0 w this ->
        N.of_nat (length input) <= 4096 -> N.of_nat (length X) <= 4096 ->
        now + 3600 <= MAX_UINT256 ->
        t1 + 600 < now + 3600 ->
        t2 <= t1 + 600 ->
        let create := Tx (mkMsg r now)
                         (CreateTask input (keccak256 X) spec 10 1 (now + 3600)) in
        let commit := Tx (mkMsg w t1)
                         (Commit 0 (keccak256 (abi_encode (keccak256 X) S))) in
        let reveal := Tx (mkMsg w t2) (Reveal 0 X S) in
        let st2 := run keccak256 this (init l0) [create; commit] in
        let st3 := run keccak256 this (init l0) [create; commit; reveal] in
        succeeds keccak256 this st2 reveal = true
        /\ state (getTask st2 0) = COMMITTED
        /\ state (getTask st3 0) = COMPLETED
        /\ Ledger.balanceOf (mnee st3) w = Ledger.balanceOf (mnee st2) w + 11
        /\ Ledger.balanceOf (mnee st3) w = Ledger.balanceOf l0 w + 10
        /\ Ledger.balanceOf (mnee st3) r + 10 = Ledger.balanceOf l0 r
        /\ Ledger.balanceOf (mnee st3) this = Ledger.balanceOf l0 this).
Proof.
  intros t Hs Hw Htime Hlen Hc Ho Hfit. split; [|split; [|split; [|split]]].
  - rewrite reveal_spec by assumption. fold t. rewrite Hw. reflexivity.
  - intros st0 msg0 c st' ev H.
    destruct c as [i o s a b d | id0 h | id0 out0 salt0 | id0 | id0].
    + left. destruct (payment_of_call keccak256 this _ _ _ _ _ H)
        as [P | [(? & ? & ? & ? & _) | (? & ? & [? | ?] & _)]];
        [exact P | discriminate ..].
    + left. destruct (payment_of_call keccak256 this _ _ _ _ _ H)
        as [P | [(? & ? & ? & ? & _) | (? & ? & [? | ?] & _)]];
        [exact P | discriminate ..].
    + right; left. destruct (payment_of_call keccak256 this _ _ _ _ _ H)
        as [(? & [(? & ? & ? & ? & ? & ?) | (? & ? & ?)] & _)
           | [P | (? & ? & [? | ?] & _)]];
        [discriminate | discriminate | exact P | discriminate ..].
    + right; right; left. simpl in H.
      apply expireCommit_Ok in H as (Hs0 & _ & _ & l & Hl & -> & _).
      exists id0. auto.
    + right; right; right. simpl in H.
      apply claimTimeout_Ok in H as (_ & _ & _ & l & Hl & -> & _).
      exists id0. auto.
  - intros st0 msg0 id0 h t0 Hs0 Hwin Hd Hreq.
    subst t0. rewrite commit_spec by assumption. rewrite Hreq. reflexivity.
  - intros st0 msg0 id0 t0 Hs0 Hself Hrd. subst t0. split.
    + intros Hd. rewrite expireCommit_spec by assumption.
      rewrite Hself. reflexivity.
    + intros Hd Hfit0.
      rewrite claimTimeout_spec; try assumption.
      * unfold refund. rewrite Hs0, Hself. reflexivity.
      * by rewrite Hs0.
      * intros _. exact Hrd.
      * intros _. exact Hfit0.
  - apply happy_path.
Qed.

(** C6. [expireCommit] does not look at its caller. On a COMMITTED task,
    at a time after [revealDeadline] and not after [deadline], it
    resets [committedWorker], [commitHash] and [revealDeadline], makes
    the task OPEN again and pays the whole [bondAmount] to the recorded
    requester (the call reverts only if the token refuses that
    transfer). Afterwards the task accepts a commit from any worker
    while the commit window is open. *)
Theorem expireCommit_slashes_bond st msg id :
  let t := getTask st id in
  state t = COMMITTED ->
  revealDeadline t < timestamp msg ->
  timestamp msg <= deadline t ->
  expireCommit this st msg id
  = match safeTransfer (mnee st) this (requester t) (bondAmount t) with
    | Some ledger =>
        Ok (mkState ledger
              (<[id := mkTask (requester t) (inputHash t) (expectedOutputHash t)
                              (specHash t) (amount t) (bondAmount t) (deadline t)
                              OPEN 0 0 0]> (tasks st))
              (nextTaskId st),
            [CommitExpired id (committedWorker t) (bondAmount t)])
    | None => Err TokenRevert
    end
  /\ (forall who,
        expireCommit this st (mkMsg who (timestamp msg)) id
        = expireCommit this st msg id)
  /\ (forall st' ev,
        expireCommit this st msg id = Ok (st', ev) ->
        forall msg' h,
          timestamp msg' + 600 < deadline t ->
          deadline t <= MAX_UINT256 ->
          commit this st' msg' id h
          = match safeTransferFrom (mnee st') this (sender msg') this (bondAmount t) with
            | Some ledger =>
                Ok (mkState ledger
                      (<[id := mkTask (requester t) (inputHash t) (expectedOutputHash t)
                                      (specHash t) (amount t) (bondAmount t) (deadline t)
                                      COMMITTED (sender msg') h (timestamp msg' + 600)]>
                         (tasks st'))
                      (nextTaskId st'),
                    [TaskCommitted id (sender msg') h (bondAmount t)
                                   (timestamp msg' + 600)])
            | None => Err TokenRevert
            end).
Proof.
  intros t Hs Hrd Hd. split; [|split].
  - by apply expireCommit_spec.
  - intros who. reflexivity.
  - intros st' ev H msg' h Htime Hmax.
    apply expireCommit_Ok in H as (_ & _ & _ & l & _ & -> & _).
    rewrite commit_spec; rewrite getTask_insert_eq; simpl; try assumption;
      reflexivity.
Qed.

(** C7. [claimTimeout] does not look at its caller. On a task that is
    neither COMPLETED nor REFUNDED, at a time after [deadline] (and
    after [revealDeadline] if the task is COMMITTED), it makes the task
    REFUNDED and pays the recorded requester [amount], plus
    [bondAmount] if the task was COMMITTED (the call reverts only if
    the token refuses that transfer). *)
Theorem claimTimeout_refunds_requester st msg id :
  let t := getTask st id in
  terminal (state t) = false ->
  deadline t < timestamp msg ->
  (state t = COMMITTED -> revealDeadline t < timestamp msg) ->
  (state t = COMMITTED -> amount t + bondAmount t <= MAX_UINT256) ->
  claimTimeout this st msg id
  = match safeTransfer (mnee st) this (requester t)
            (if bool_decide (state t = COMMITTED)
             then amount t + bondAmount t else amount t) with
    | Some ledger =>
        Ok (mkState ledger
              (<[id := mkTask (requester t) (inputHash t) (expectedOutputHash t)
                              (specHash t) (amount t) (bondAmount t) (deadline t)
                              REFUNDED (committedWorker t) (commitHash t)
                              (revealDeadline t)]> (tasks st))
              (nextTaskId st),
            [TaskRefunded id (requester t) (amount t)
               (if bool_decide (state t = COMMITTED) then bondAmount t else 0)])
    | None => Err TokenRevert
    end
  /\ (forall who,
        claimTimeout this st (mkMsg who (timestamp msg)) id
        = claimTimeout this st msg id).
Proof.
  intros t Hs Hd Hrd Hfit. split.
  - by apply claimTimeout_spec.
  - intros who. reflexivity.
Qed.

(** C9. A commit to a task id that was never created never succeeds.
    On the unwritten record the state reads OPEN, so [TaskNotOpen] is
    not raised, and [deadline - REVEAL_WINDOW] underflows: the call
    fails with the arithmetic panic, at any time and for any caller.
    In every reachable state a slot beyond [nextTaskId] is unwritten,
    or carries only the REFUNDED mark that a [claimTimeout] on it left
    (C10), in which case commit fails with [TaskNotOpen]; with a token
    that refuses transfers to the zero address no such mark can be
    left, and every commit beyond [nextTaskId] panics. *)
Theorem commit_never_created :
  (forall st msg id h,
     getTask st id = zeroTask ->
     state (getTask st id) = OPEN
     /\ checked_sub (deadline (getTask st id)) REVEAL_WINDOW = Err Panic
     /\ commit this st msg id h = Err Panic
     /\ commit this st msg id h <> Err TaskNotOpen
     /\ commit this st msg id h <> Err CommitWindowClosed)
  /\ (forall ledger trace id msg h,
        let st := run keccak256 this (init ledger) trace in
        nextTaskId st <= id ->
        (getTask st id = zeroTask \/ getTask st id = set_state zeroTask REFUNDED)
        /\ (commit this st msg id h = Err Panic
            \/ commit this st msg id h = Err TaskNotOpen))
  /\ (rejects_zero_address L this ->
      forall ledger trace id msg h,
        let st := run keccak256 this (init ledger) trace in
        nextTaskId st <= id ->
        getTask st id = zeroTask
        /\ commit this st msg id h = Err Panic).
Proof.
  split; [|split].
  - intros st msg id h Hz.
    rewrite (commit_unwritten this st msg id h Hz), Hz.
    repeat split; discriminate.
  - intros ledger trace id msg h st Hid. split.
    + by apply (consistent_reachable keccak256 this ledger trace id).
    + by apply commit_beyond_next.
  - intros Hrej ledger trace id msg h st Hid.
    pose proof (pristine_reachable keccak256 this ledger trace Hrej id Hid) as Hz.
    split; [exact Hz | by apply commit_unwritten].
Qed.

(** C10. On a task id that was never created, at any time after 0,
    [claimTimeout] passes its own guards: the unwritten record is
    neither COMPLETED nor REFUNDED and its deadline 0 has passed. It
    marks the record REFUNDED and asks the token to transfer 0 to the
    zero address; the call fails only if the token refuses that
    transfer. With a token that refuses it, every slot beyond
    [nextTaskId] stays unwritten in every reachable state. *)
Theorem claimTimeout_never_created :
  (forall st msg id,
     getTask st id = zeroTask ->
     0 < timestamp msg ->
     claimTimeout this st msg id
     = match safeTransfer (mnee st) this 0 0 with
       | Some ledger =>
           Ok (mkState ledger
                 (<[id := mkTask 0 0 0 0 0 0 0 REFUNDED 0 0 0]> (tasks st))
                 (nextTaskId st),
               [TaskRefunded id 0 0 0])
       | None => Err TokenRevert
       end
     /\ claimTimeout this st msg id <> Err TaskAlreadyFinalized
     /\ claimTimeout this st msg id <> Err DeadlineNotPassed)
  /\ (forall ledger trace id,
        let st := run keccak256 this (init ledger) trace in
        nextTaskId st <= id ->
        getTask st id = zeroTask \/ getTask st id = set_state zeroTask REFUNDED)
  /\ (rejects_zero_address L this ->
      forall ledger trace id,
        let st := run keccak256 this (init ledger) trace in
        nextTaskId st <= id -> getTask st id = zeroTask).
Proof.
  split; [|split].
  - intros st msg id Hz Hnow.
    rewrite (claimTimeout_unwritten this st msg id Hz Hnow).
    split; [reflexivity|].
    destruct (safeTransfer (mnee st) this 0 0); split; discriminate.
  - intros ledger trace id st Hid.
    by apply (consistent_reachable keccak256 this ledger trace id).
  - intros Hrej ledger trace id st Hid.
    by apply (pristine_reachable keccak256 this ledger trace Hrej id Hid).
Qed.

End Payments.

(** * The properties on the sample run *)

(** C1 as stated fails for [reveal]: on the COMPLETED sample task, a
    reveal with an output of 4097 bytes fails with [OutputTooLarge], not
    with [TaskNotCommitted]. *)
Lemma reveal_on_terminal_oversized :
  state (getTask Sample.completed 0) = COMPLETED
  /\ reveal sample_hash Sample.escrow Sample.completed (mkMsg Sample.bob 1300) 0
            Sample.oversized Sample.S
     = Err OutputTooLarge
  /\ reveal sample_hash Sample.escrow Sample.completed (mkMsg Sample.bob 1300) 0
            Sample.oversized Sample.S
     <> Err TaskNotCommitted.
Proof.
  vm_compute. repeat split; discriminate.
Qed.

Lemma terminal_is_final_witness :
  0 < nextTaskId Sample.completed
  /\ terminal (state (getTask Sample.completed 0)) = true
  /\ (forall msg,
        claimTimeout Sample.escrow Sample.completed msg 0 = Err TaskAlreadyFinalized)
  /\ (forall trace,
        (payouts sample_hash Sample.escrow 0 Sample.completed trace <= 1)%nat).
Proof.
  assert (0 < nextTaskId Sample.completed) as H1 by (vm_compute; reflexivity).
  assert (terminal (state (getTask Sample.completed 0)) = true) as H2
    by (vm_compute; reflexivity).
  split; [exact H1|]. split; [exact H2|].
  destruct (terminal_is_final sample_hash Sample.escrow Sample.completed 0 H1)
    as (Ht & _ & _ & Hp).
  split; [|exact Hp].
  intros msg. destruct (Ht H2 []) as (_ & H).
  destruct (H msg) as (_ & _ & Hc). exact Hc.
Defined.

(** C2 as stated fails for [claimTimeout]: the sample task is COMMITTED
    when carol's claimTimeout succeeds after the deadline, and the
    REFUNDED record still names bob, his commitment hash and his reveal
    deadline. *)
Lemma claimTimeout_keeps_commitment :
  state (getTask Sample.committed 0) = COMMITTED
  /\ succeeds sample_hash Sample.escrow Sample.committed Sample.timeout_carol = true
  /\ state (getTask Sample.refunded 0) = REFUNDED
  /\ committedWorker (getTask Sample.refunded 0) = Sample.bob
  /\ commitHash (getTask Sample.refunded 0) = Sample.commitment
  /\ revealDeadline (getTask Sample.refunded 0) = 1700
  /\ ~ (committedWorker (getTask Sample.refunded 0) = 0
        /\ commitHash (getTask Sample.refunded 0) = 0
        /\ revealDeadline (getTask Sample.refunded 0) = 0).
Proof.
  vm_compute. repeat split; try discriminate.
  intros (H & _). discriminate.
Qed.

Lemma commitment_fields_witness :
  state (getTask (run sample_hash Sample.escrow (init Sample.ledger0) [Sample.create]) 0)
  = OPEN
  /\ committedWorker
       (getTask (run sample_hash Sample.escrow (init Sample.ledger0) [Sample.create]) 0)
     = 0.
Proof.
  assert (state (getTask (run sample_hash Sample.escrow (init Sample.ledger0)
                              [Sample.create]) 0) = OPEN) as H1
    by (vm_compute; reflexivity).
  split; [exact H1|].
  destruct (commitment_fields (L := Ledger.t) sample_hash Sample.escrow)
    as (_ & _ & _ & H).
  destruct (H Sample.ledger0 [Sample.create] 0 H1) as (Hw & _). exact Hw.
Defined.

Lemma reveal_deadline_before_deadline_witness :
  state (getTask (run sample_hash Sample.escrow (init Sample.ledger0)
                      [Sample.create; Sample.commit_bob]) 0) = COMMITTED
  /\ exists commitTime',
       commitTime sample_hash Sample.escrow 0 None (init Sample.ledger0)
                  [Sample.create; Sample.commit_bob] = Some commitTime'
       /\ revealDeadline (getTask Sample.committed 0) = commitTime' + 600
       /\ revealDeadline (getTask Sample.committed 0)
          < deadline (getTask Sample.committed 0).
Proof.
  assert (state (getTask (run sample_hash Sample.escrow (init Sample.ledger0)
                              [Sample.create; Sample.commit_bob]) 0) = COMMITTED)
    as H1 by (vm_compute; reflexivity).
  split; [exact H1|].
  destruct (reveal_deadline_before_deadline (L := Ledger.t) sample_hash Sample.escrow)
    as (H & _).
  exact (H Sample.ledger0 [Sample.create; Sample.commit_bob] 0 H1).
Defined.

Lemma reveal_by_other_fails_witness :
  state (getTask Sample.committed 0) = COMMITTED
  /\ sender (mkMsg Sample.carol 1200) <> committedWorker (getTask Sample.committed 0)
  /\ N.of_nat (length Sample.X) <= 4096
  /\ reveal sample_hash Sample.escrow Sample.committed (mkMsg Sample.carol 1200) 0
            Sample.X Sample.S
     = Err NotCommittedWorker.
Proof.
  assert (state (getTask Sample.committed 0) = COMMITTED) as H1
    by (vm_compute; reflexivity).
  assert (sender (mkMsg Sample.carol 1200)
          <> committedWorker (getTask Sample.committed 0)) as H2
    by (vm_compute; discriminate).
  assert (N.of_nat (length Sample.X) <= 4096) as H3 by (vm_compute; discriminate).
  do 3 (split; [assumption|]).
  exact (proj1 (reveal_by_other_fails sample_hash Sample.escrow Sample.committed
                  (mkMsg Sample.carol 1200) 0 Sample.X Sample.S H1 H2 H3)).
Defined.

(** C4 as stated fails when the requester is the committed worker:
    alice creates the sample task (amount 10, bond 1) and commits to it
    herself, which leaves her 89 tokens. After the reveal window carol
    calls expireCommit, which is not a reveal: it succeeds and the bond
    of 1 returns to alice, the committed worker. A claimTimeout after
    the deadline likewise returns amount and bond to her. *)
Lemma self_commit_bond_returned :
  let st := Sample.self_committed in
  let expired := step sample_hash Sample.escrow st Sample.expire_carol in
  let refunded := step sample_hash Sample.escrow st Sample.timeout_carol in
  state (getTask st 0) = COMMITTED
  /\ committedWorker (getTask st 0) = Sample.alice
  /\ bondAmount (getTask st 0) = 1
  /\ Ledger.balanceOf (mnee st) Sample.alice = 89
  /\ succeeds sample_hash Sample.escrow st Sample.expire_carol = true
  /\ state (getTask expired 0) = OPEN
  /\ Ledger.balanceOf (mnee expired) Sample.alice = 90
  /\ succeeds sample_hash Sample.escrow st Sample.timeout_carol = true
  /\ state (getTask refunded 0) = REFUNDED
  /\ Ledger.balanceOf (mnee refunded) Sample.alice = 100.
Proof.
  vm_compute. repeat split.
Qed.

Lemma reveal_pays_worker_witness :
  let t := getTask Sample.committed 0 in
  let msg := mkMsg Sample.bob 1200 in
  state t = COMMITTED
  /\ sender msg = committedWorker t
  /\ timestamp msg <= revealDeadline t
  /\ N.of_nat (length Sample.X) <= 4096
  /\ sample_hash (abi_encode (sample_hash Sample.X) Sample.S) = commitHash t
  /\ sample_hash Sample.X = expectedOutputHash t
  /\ amount t + bondAmount t <= MAX_UINT256
  /\ reveal sample_hash Sample.escrow Sample.committed msg 0 Sample.X Sample.S
     = match safeTransfer (mnee Sample.committed) Sample.escrow (committedWorker t)
               (amount t + bondAmount t) with
       | Some ledger =>
           Ok (mkState ledger
                 (<[0 := mkTask (requester t) (inputHash t) (expectedOutputHash t)
                                (specHash t) (amount t) (bondAmount t) (deadline t)
                                COMPLETED (committedWorker t) (commitHash t)
                                (revealDeadline t)]> (tasks Sample.committed))
                 (nextTaskId Sample.committed),
               [TaskCompleted 0 (committedWorker t) Sample.X])
       | None => Err TokenRevert
       end.
Proof.
  intros t msg.
  assert (state t = COMMITTED) as H1 by (vm_compute; reflexivity).
  assert (sender msg = committedWorker t) as H2 by (vm_compute; reflexivity).
  assert (timestamp msg <= revealDeadline t) as H3 by (vm_compute; discriminate).
  assert (N.of_nat (length Sample.X) <= 4096) as H4 by (vm_compute; discriminate).
  assert (sample_hash (abi_encode (sample_hash Sample.X) Sample.S) = commitHash t)
    as H5 by (vm_compute; reflexivity).
  assert (sample_hash Sample.X = expectedOutputHash t) as H6
    by (vm_compute; reflexivity).
  assert (amount t + bondAmount t <= MAX_UINT256) as H7
    by (vm_compute; discriminate).
  do 7 (split; [assumption|]).
  exact (proj1 (reveal_pays_worker sample_hash Sample.escrow Sample.committed msg 0
                  Sample.X Sample.S H1 H2 H3 H4 H5 H6 H7)).
Defined.

Lemma expireCommit_slashes_bond_witness :
  let t := getTask Sample.committed 0 in
  let msg := mkMsg Sample.carol 1701 in
  state t = COMMITTED
  /\ revealDeadline t < timestamp msg
  /\ timestamp msg <= deadline t
  /\ expireCommit Sample.escrow Sample.committed msg 0
     = match safeTransfer (mnee Sample.committed) Sample.escrow (requester t)
               (bondAmount t) with
       | Some ledger =>
           Ok (mkState ledger
                 (<[0 := mkTask (requester t) (inputHash t) (expectedOutputHash t)
                                (specHash t) (amount t) (bondAmount t) (deadline t)
                                OPEN 0 0 0]> (tasks Sample.committed))
                 (nextTaskId Sample.committed),
               [CommitExpired 0 (committedWorker t) (bondAmount t)])
       | None => Err TokenRevert
       end.
Proof.
  intros t msg.
  assert (state t = COMMITTED) as H1 by (vm_compute; reflexivity).
  assert (revealDeadline t < timestamp msg) as H2 by (vm_compute; reflexivity).
  assert (timestamp msg <= deadline t) as H3 by (vm_compute; discriminate).
  do 3 (split; [assumption|]).
  exact (proj1 (expireCommit_slashes_bond Sample.escrow Sample.committed msg 0
                  H1 H2 H3)).
Defined.

Lemma claimTimeout_refunds_requester_witness :
  let t := getTask Sample.committed 0 in
  let msg := mkMsg Sample.carol 5000 in
  terminal (state t) = false
  /\ deadline t < timestamp msg
  /\ (state t = COMMITTED -> revealDeadline t < timestamp msg)
  /\ (state t = COMMITTED -> amount t + bondAmount t <= MAX_UINT256)
  /\ claimTimeout Sample.escrow Sample.committed msg 0
     = match safeTransfer (mnee Sample.committed) Sample.escrow (requester t)
               (if bool_decide (state t = COMMITTED)
                then amount t + bondAmount t else amount t) with
       | Some ledger =>
           Ok (mkState ledger
                 (<[0 := mkTask (requester t) (inputHash t) (expectedOutputHash t)
                                (specHash t) (amount t) (bondAmount t) (deadline t)
                                REFUNDED (committedWorker t) (commitHash t)
                                (revealDeadline t)]> (tasks Sample.committed))
                 (nextTaskId Sample.committed),
               [TaskRefunded 0 (requester t) (amount t)
                  (if bool_decide (state t = COMMITTED) then bondAmount t else 0)])
       | None => Err TokenRevert
       end.
Proof.
  intros t msg.
  assert (terminal (state t) = false) as H1 by (vm_compute; reflexivity).
  assert (deadline t < timestamp msg) as H2 by (vm_compute; reflexivity).
  assert (state t = COMMITTED -> revealDeadline t < timestamp msg) as H3
    by (intros _; vm_compute; reflexivity).
  assert (state t = COMMITTED -> amount t + bondAmount t <= MAX_UINT256) as H4
    by (intros _; vm_compute; discriminate).
  do 4 (split; [assumption|]).
  exact (proj1 (claimTimeout_refunds_requester Sample.escrow Sample.committed msg 0
                  H1 H2 H3 H4)).
Defined.

Lemma commit_never_created_witness :
  getTask (init Sample.ledger0) 7 = zeroTask
  /\ commit Sample.escrow (init Sample.ledger0) (mkMsg Sample.bob 1) 7 Sample.commitment
     = Err Panic.
Proof.
  assert (getTask (init Sample.ledger0) 7 = zeroTask) as H1 by reflexivity.
  split; [exact H1|].
  destruct (commit_never_created (L := Ledger.t) sample_hash Sample.escrow) as (H & _).
  destruct (H (init Sample.ledger0) (mkMsg Sample.bob 1) 7 Sample.commitment H1)
    as (_ & _ & Hp & _).
  exact Hp.
Defined.

Lemma claimTimeout_never_created_witness :
  getTask (init Sample.ledger0) 7 = zeroTask
  /\ 0 < timestamp (mkMsg Sample.carol 1)
  /\ claimTimeout Sample.escrow (init Sample.ledger0) (mkMsg Sample.carol 1) 7
     = match safeTransfer (mnee (init Sample.ledger0)) Sample.escrow 0 0 with
       | Some ledger =>
           Ok (mkState ledger
                 (<[7 := mkTask 0 0 0 0 0 0 0 REFUNDED 0 0 0]>
                    (tasks (init Sample.ledger0)))
                 (nextTaskId (init Sample.ledger0)),
               [TaskRefunded 7 0 0 0])
       | None => Err TokenRevert
       end.
Proof.
  assert (getTask (init Sample.ledger0) 7 = zeroTask) as H1 by reflexivity.
  assert (0 < timestamp (mkMsg Sample.carol 1)) as H2 by reflexivity.
  do 2 (split; [assumption|]).
  destruct (claimTimeout_never_created (L := Ledger.t) sample_hash Sample.escrow)
    as (H & _).
  exact (proj1 (H (init Sample.ledger0) (mkMsg Sample.carol 1) 7 H1 H2)).
Defined.

(** * Further properties of the contract *)

Section Lifecycle.

Context {L : Type} `{Token : IERC20 L}.
Variable keccak256 : bytes -> bytes32.
Variable this : address.

Lemma terms_step st s id :
  id < nextTaskId st ->
  terms (getTask (step keccak256 this st s) id) = terms (getTask st id).
Proof.
  intros Hid.
  destruct (step_task keccak256 this st s id Hid)
    as [(H & _) | [(m & h & _ & _ & _ & _ & H) | [(m & o & sa & _ & _ & _ & H)
       | [(m & _ & _ & _ & H) | (m & _ & _ & _ & H)]]]];
    rewrite H; reflexivity.
Qed.

Lemma terms_run st trace id :
  id < nextTaskId st ->
  terms (getTask (run keccak256 this st trace) id) = terms (getTask st id).
Proof.
  revert st. induction trace as [|s rest IH]; intros st Hid; simpl.
  - reflexivity.
  - rewrite IH.
    + by apply terms_step.
    + pose proof (nextTaskId_step keccak256 this st s). lia.
Qed.

(** X1. The requester, the three hashes, the amount, the bond and the
    deadline of a created task are the same after any sequence of
    transactions: only [state] and the three commitment fields are ever
    written again. *)
Theorem task_terms_immutable st trace id :
  id < nextTaskId st ->
  terms (getTask (run keccak256 this st trace) id) = terms (getTask st id).
Proof.
  intros Hid. by apply terms_run.
Qed.

Lemma creation_step st s :
  nextTaskId (step keccak256 this st s)
  = nextTaskId st
    + (if is_create s && succeeds keccak256 this st s then 1 else 0).
Proof.
  destruct s as [msg c | ledger]; simpl; [|lia].
  destruct (call keccak256 this st msg c) as [[st' ev]|] eqn:E.
  2: { rewrite andb_false_r. lia. }
  rewrite andb_true_r.
  destruct c as [i o s a b d | id h | id out salt | id | id]; simpl in E.
  - destruct (createTask _ _ _ _ _ _ _ _ _ _) as [[[s1 n1] e1]|] eqn:E1;
      simpl in E; inversion E; subst; clear E.
    apply createTask_Ok in E1 as (_ & _ & _ & _ & _ & -> & l & _ & -> & _).
    reflexivity.
  - apply commit_Ok in E as (_ & _ & _ & l & _ & -> & _). simpl. lia.
  - apply reveal_Ok in E as (_ & _ & _ & _ & _ & _ & l & _ & -> & _). simpl. lia.
  - apply expireCommit_Ok in E as (_ & _ & _ & l & _ & -> & _). simpl. lia.
  - apply claimTimeout_Ok in E as (_ & _ & _ & l & _ & -> & _). simpl. lia.
Qed.

(** X2. Task ids are handed out in sequence: [nextTaskId] grows by one
    with each successful createTask and with nothing else, so after
    deployment it equals the number of tasks created, and a successful
    createTask returns the number of tasks created before it. *)
Theorem ids_sequential :
  (forall st trace,
     nextTaskId (run keccak256 this st trace)
     = nextTaskId st + N.of_nat (creations keccak256 this st trace))
  /\ (forall ledger trace,
        nextTaskId (run keccak256 this (init ledger) trace)
        = N.of_nat (creations keccak256 this (init ledger) trace))
  /\ (forall ledger trace msg input oh sh amt bond dl st' id ev,
        createTask keccak256 this (run keccak256 this (init ledger) trace)
                   msg input oh sh amt bond dl = Ok (st', id, ev) ->
        id = N.of_nat (creations keccak256 this (init ledger) trace)
        /\ nextTaskId st' = id + 1).
Proof.
  assert (forall st trace,
            nextTaskId (run keccak256 this st trace)
            = nextTaskId st + N.of_nat (creations keccak256 this st trace)) as H.
  { intros st trace. revert st.
    induction trace as [|s rest IH]; intros st; simpl.
    - unfold creations. simpl. lia.
    - rewrite IH, creation_step. unfold creations. simpl.
      destruct (is_create s && succeeds keccak256 this st s); lia. }
  split; [exact H|]. split.
  - intros ledger trace. rewrite H. reflexivity.
  - intros ledger trace msg input oh sh amt bond dl st' id ev E.
    apply createTask_Ok in E as (_ & _ & _ & _ & _ & -> & l & _ & -> & _).
    rewrite H. simpl. split; reflexivity.
Qed.

End Lifecycle.

Section Transitions.

Context {L : Type} `{Token : IERC20 L}.
Variable keccak256 : bytes -> bytes32.
Variable this : address.

(** X3. The state of a created task changes only along the five edges
    of the state machine, each by its own function: OPEN to COMMITTED
    by commit, COMMITTED to COMPLETED by reveal, COMMITTED to OPEN by
    expireCommit, and OPEN or COMMITTED to REFUNDED by claimTimeout.
    Every other step leaves the whole record as it was. *)
Theorem state_machine st s id :
  id < nextTaskId st ->
  let t := getTask st id in
  let t' := getTask (step keccak256 this st s) id in
  t' = t
  \/ (allowed (state t) (state t') = true
      /\ ((exists msg h, s = Tx msg (Commit id h))
            /\ state t = OPEN /\ state t' = COMMITTED
          \/ (exists msg out salt, s = Tx msg (Reveal id out salt))
            /\ state t = COMMITTED /\ state t' = COMPLETED
          \/ (exists msg, s = Tx msg (ExpireCommit id))
            /\ state t = COMMITTED /\ state t' = OPEN
          \/ (exists msg, s = Tx msg (ClaimTimeout id))
            /\ (state t = OPEN \/ state t = COMMITTED) /\ state t' = REFUNDED)).
Proof.
  intros Hid t t'. subst t t'.
  destruct (step_task keccak256 this st s id Hid)
    as [(H & _) | [(m & h & -> & _ & Hs & _ & H) | [(m & o & sa & -> & _ & Hs & H)
       | [(m & -> & _ & Hs & H) | (m & -> & _ & Hs & H)]]]].
  - left. exact H.
  - right. rewrite H. simpl. rewrite Hs. split; [reflexivity|]. left. eauto.
  - right. rewrite H. simpl. rewrite Hs. split; [reflexivity|].
    right; left. eauto 6.
  - right. rewrite H. simpl. rewrite Hs. split; [reflexivity|].
    right; right; left. eauto.
  - right. rewrite H. simpl.
    split; [destruct Hs as [Hs | Hs]; rewrite Hs; reflexivity|].
    right; right; right. eauto.
Qed.


Lemma claimTimeout_rug st msg id :
  claimTimeout this st msg id = Err RevealWindowActive ->
  state (getTask st id) = COMMITTED
  /\ deadline (getTask st id) < timestamp msg
  /\ timestamp msg <= revealDeadline (getTask st id).
Proof.
  unfold claimTimeout. intros H.
  destruct (state (getTask st id)) eqn:Hs; simpl in H; try discriminate.
  - guards.
  - guards. auto.
Qed.

(** X5. The reveal-window guard of claimTimeout never fires: in no
    state reachable from deployment does claimTimeout fail with
    [RevealWindowActive], because a committed task always has
    [revealDeadline < deadline]. *)
Theorem claimTimeout_guard_unreachable ledger trace msg id :
  claimTimeout this (run keccak256 this (init ledger) trace) msg id
  <> Err RevealWindowActive.
Proof.
  intros H. apply claimTimeout_rug in H as (Hs & Hd & Hrd).
  pose proof (consistent_reachable keccak256 this ledger trace) as Hc.
  pose proof (committed_created _ id Hc Hs) as Hid.
  destruct (Hc id) as [Hlt _].
  destruct (Hlt Hid) as (_ & _ & _ & _ & Hcm & _).
  destruct (Hcm Hs). lia.
Qed.

Lemma reveal_after_window st msg id out salt st' ev :
  revealDeadline (getTask st id) < timestamp msg ->
  reveal keccak256 this st msg id out salt <> Ok (st', ev).
Proof.
  intros Hrd H. apply reveal_Ok in H as (_ & _ & _ & Ht & _). lia.
Qed.

(** X6. At any time exactly one way of settling a committed task is
    open. Up to [revealDeadline] only reveal can pass: expireCommit
    fails with [RevealWindowActive] and claimTimeout with
    [DeadlineNotPassed]. After [revealDeadline] and up to [deadline]
    only expireCommit passes: no reveal succeeds and claimTimeout still
    fails with [DeadlineNotPassed]. After [deadline] only claimTimeout
    passes: no reveal succeeds and expireCommit fails with
    [DeadlineNotPassed]. *)
Theorem settlement_windows ledger trace msg id :
  let st := run keccak256 this (init ledger) trace in
  let t := getTask st id in
  state t = COMMITTED ->
  (timestamp msg <= revealDeadline t ->
     expireCommit this st msg id = Err RevealWindowActive
     /\ claimTimeout this st msg id = Err DeadlineNotPassed)
  /\ (revealDeadline t < timestamp msg -> timestamp msg <= deadline t ->
        (forall out salt st' ev,
           reveal keccak256 this st msg id out salt <> Ok (st', ev))
        /\ claimTimeout this st msg id = Err DeadlineNotPassed
        /\ expireCommit this st msg id
           = match safeTransfer (mnee st) this (requester t) (bondAmount t) with
             | Some ledger' =>
                 Ok (mkState ledger'
                       (<[id := set_commitment (set_state t OPEN) 0 0 0]> (tasks st))
                       (nextTaskId st),
                     [CommitExpired id (committedWorker t) (bondAmount t)])
             | None => Err TokenRevert
             end)
  /\ (deadline t < timestamp msg ->
        (forall out salt st' ev,
           reveal keccak256 this st msg id out salt <> Ok (st', ev))
        /\ expireCommit this st msg id = Err DeadlineNotPassed
        /\ (amount t + bondAmount t <= MAX_UINT256 ->
            claimTimeout this st msg id
            = match safeTransfer (mnee st) this (requester t)
                      (amount t + bondAmount t) with
              | Some ledger' =>
                  Ok (mkState ledger' (<[id := set_state t REFUNDED]> (tasks st))
                        (nextTaskId st),
                      [TaskRefunded id (requester t) (amount t) (bondAmount t)])
              | None => Err TokenRevert
              end)).
Proof.
  intros st t Hs.
  pose proof (consistent_reachable keccak256 this ledger trace) as Hc.
  pose proof (committed_created _ id Hc Hs) as Hid.
  destruct (Hc id) as [Hlt _].
  destruct (Hlt Hid) as (_ & _ & _ & _ & Hcm & _).
  destruct (Hcm Hs) as [_ Hrd]. fold st t in Hrd.
  split; [|split].
  - intros Hnow. split.
    + unfold expireCommit. fold t. rewrite Hs. simpl. guards; try reflexivity; lia.
    + unfold claimTimeout. fold t. rewrite Hs. simpl. guards; try reflexivity; lia.
  - intros Hnow Hnow'. split; [|split].
    + intros out salt st' ev. by apply reveal_after_window.
    + unfold claimTimeout. fold t. rewrite Hs. simpl. guards; try reflexivity; lia.
    + by apply expireCommit_spec.
  - intros Hnow. split; [|split].
    + intros out salt st' ev. apply reveal_after_window. fold st t. lia.
    + unfold expireCommit. fold t. rewrite Hs. simpl.
      guards; try reflexivity; lia.
    + intros Hfit. rewrite claimTimeout_spec; fold st t.
      * unfold refund. rewrite Hs. reflexivity.
      * rewrite Hs. reflexivity.
      * assumption.
      * intros _. lia.
      * intros _. assumption.
Qed.

(** X7. An OPEN task is frozen from [deadline - 600] to [deadline]:
    commit fails with [CommitWindowClosed], claimTimeout with
    [DeadlineNotPassed], expireCommit with [TaskNotCommitted] and
    reveal with [TaskNotCommitted] or [OutputTooLarge], so no
    transaction sent in that interval changes its record. *)
Theorem open_task_frozen ledger trace msg id :
  let st := run keccak256 this (init ledger) trace in
  let t := getTask st id in
  id < nextTaskId st ->
  state t = OPEN ->
  deadline t - 600 <= timestamp msg ->
  timestamp msg <= deadline t ->
  (forall h, commit this st msg id h = Err CommitWindowClosed)
  /\ claimTimeout this st msg id = Err DeadlineNotPassed
  /\ expireCommit this st msg id = Err TaskNotCommitted
  /\ (forall out salt,
        reveal keccak256 this st msg id out salt
        = Err (if 4096 <? N.of_nat (length out)
               then OutputTooLarge else TaskNotCommitted))
  /\ (forall c, getTask (step keccak256 this st (Tx msg c)) id = t).
Proof.
  intros st t Hid Hs Hlo Hhi.
  destruct (consistent_reachable keccak256 this ledger trace id) as [Hlt _].
  destruct (Hlt Hid) as (_ & _ & _ & Hd & _). fold st t in Hd.
  assert (forall h, commit this st msg id h = Err CommitWindowClosed) as H1.
  { intros h. apply commit_window_closed; fold t; try assumption.
    unfold REVEAL_WINDOW in *. lia. }
  assert (claimTimeout this st msg id = Err DeadlineNotPassed) as H2.
  { unfold claimTimeout. fold t. rewrite Hs. simpl. guards; try reflexivity; lia. }
  assert (expireCommit this st msg id = Err TaskNotCommitted) as H3.
  { apply expireCommit_not_committed. fold t. rewrite Hs. discriminate. }
  assert (forall out salt,
            reveal keccak256 this st msg id out salt
            = Err (if 4096 <? N.of_nat (length out)
                   then OutputTooLarge else TaskNotCommitted)) as H4.
  { intros out salt. apply reveal_not_committed. fold t. rewrite Hs. discriminate. }
  repeat split; try assumption.
  intros c.
  destruct (step_task keccak256 this st (Tx msg c) id Hid)
    as [(H & _) | [(m & h & E & Hok & _) | [(m & o & sa & E & Hok & _)
       | [(m & E & Hok & _) | (m & E & Hok & _)]]]];
    [exact H | | | |]; inversion E; subst; simpl in Hok.
  - rewrite H1 in Hok. discriminate.
  - rewrite H4 in Hok. discriminate.
  - rewrite H3 in Hok. discriminate.
  - rewrite H2 in Hok. discriminate.
Qed.

End Transitions.

Section Composition.

Context {L : Type} `{Token : IERC20 L}.
Variable keccak256 : bytes -> bytes32.
Variable this : address.

(** X8. A task can be committed to from the moment it is created: the
    deadline check of createTask leaves the commit window open at the
    creation time, and a commit at any time [t] with
    [t + 600 < deadline] passes both guards of commit, pulling exactly
    the bond the requester set. *)
Theorem committable_when_created st msg input oh sh amt bond dl st' id ev :
  createTask keccak256 this st msg input oh sh amt bond dl = Ok (st', id, ev) ->
  dl <= MAX_UINT256 ->
  timestamp msg + 600 < dl
  /\ forall msg' h,
       timestamp msg' + 600 < dl ->
       commit this st' msg' id h
       = match safeTransferFrom (mnee st') this (sender msg') this bond with
         | Some ledger =>
             Ok (mkState ledger
                   (<[id := mkTask (sender msg) (keccak256 input) oh sh amt bond dl
                                   COMMITTED (sender msg') h (timestamp msg' + 600)]>
                      (tasks st'))
                   (nextTaskId st'),
                 [TaskCommitted id (sender msg') h bond (timestamp msg' + 600)])
         | None => Err TokenRevert
         end.
Proof.
  intros E Hmax.
  apply createTask_Ok in E as (_ & _ & _ & _ & Hd & -> & l & _ & -> & _).
  split; [exact Hd|].
  intros msg' h Ht.
  rewrite commit_spec; rewrite getTask_insert_eq; simpl; try assumption;
    reflexivity.
Qed.

Lemma createTask_InvalidBondAmount st msg input oh sh amt bond dl :
  createTask keccak256 this st msg input oh sh amt bond dl = Err InvalidBondAmount ->
  bond < amt / 10.
Proof.
  unfold createTask. intros H. rewrite <- bond_floor. guards. assumption.
Qed.

(** X9. The bond check rounds down. With the size and amount checks
    passed and [amount * 1000] within a uint256, createTask fails with
    [InvalidBondAmount] exactly when [bondAmount < amount / 10] in
    integer division. So for an amount from 1 to 9 the minimum bond is
    0: such a task is created with [bondAmount = 0], and a worker can
    then commit to it without staking anything. *)
Theorem bond_threshold st msg input oh sh amt bond dl :
  N.of_nat (length input) <= 4096 ->
  0 < amt ->
  amt * 1000 <= MAX_UINT256 ->
  (createTask keccak256 this st msg input oh sh amt bond dl = Err InvalidBondAmount
   <-> bond < amt / 10)
  /\ (amt < 10 ->
      timestamp msg + 600 < dl -> dl <= MAX_UINT256 ->
      nextTaskId st + 1 <= MAX_UINT256 ->
      createTask keccak256 this st msg input oh sh amt 0 dl
      = match safeTransferFrom (mnee st) this (sender msg) this amt with
        | Some ledger =>
            Ok (mkState ledger
                  (<[nextTaskId st := mkTask (sender msg) (keccak256 input) oh sh
                                             amt 0 dl OPEN 0 0 0]> (tasks st))
                  (nextTaskId st + 1),
                nextTaskId st,
                [TaskCreated (nextTaskId st) (sender msg) input (keccak256 input)
                             oh sh amt 0 dl])
        | None => Err TokenRevert
        end).
Proof.
  intros Hlen Hamt Hfit. split.
  - split.
    + apply createTask_InvalidBondAmount.
    + intros Hb. by apply createTask_low_bond.
  - intros Hsmall Hd Hmax Hnext.
    apply createTask_spec; try assumption.
    rewrite N.div_small by assumption. lia.
Qed.

(** X10. The hashes the agents compute are the ones reveal checks. If a
    commit with [computeCommitHash(computeOutputHash(out), salt)]
    succeeds on a task whose expected output hash is
    [computeOutputHash(out)], then a reveal of [(out, salt)] by the
    same sender, no later than 600 seconds after the commit, passes
    every guard of reveal whatever happened on the token in between:
    it completes the task and asks for [amount + bondAmount]. *)
Theorem commit_then_reveal st m1 id out salt st1 ev1 :
  let t := getTask st id in
  commit this st m1 id
         (Encoding.computeCommitHash keccak256
            (Encoding.computeOutputHash keccak256 out) salt)
  = Ok (st1, ev1) ->
  expectedOutputHash t = Encoding.computeOutputHash keccak256 out ->
  N.of_nat (length out) <= 4096 ->
  amount t + bondAmount t <= MAX_UINT256 ->
  forall (ledger' : L) m2,
    sender m2 = sender m1 ->
    timestamp m2 <= timestamp m1 + 600 ->
    reveal keccak256 this (mkState ledger' (tasks st1) (nextTaskId st1)) m2 id out salt
    = match safeTransfer ledger' this (sender m1) (amount t + bondAmount t) with
      | Some ledger =>
          Ok (mkState ledger
                (<[id := mkTask (requester t) (inputHash t) (expectedOutputHash t)
                                (specHash t) (amount t) (bondAmount t) (deadline t)
                                COMPLETED (sender m1)
                                (Encoding.computeCommitHash keccak256
                                   (Encoding.computeOutputHash keccak256 out) salt)
                                (timestamp m1 + 600)]> (tasks st1))
                (nextTaskId st1),
              [TaskCompleted id (sender m1) out])
      | None => Err TokenRevert
      end.
Proof.
  intros t E Hout Hlen Hfit ledger' m2 Hw Ht.
  apply commit_Ok in E as (_ & _ & _ & l & _ & -> & _). fold t.
  set (t1 := set_commitment (set_state t COMMITTED) (sender m1)
               (Encoding.computeCommitHash keccak256
                  (Encoding.computeOutputHash keccak256 out) salt)
               (timestamp m1 + REVEAL_WINDOW)).
  simpl tasks. simpl nextTaskId.
  assert (getTask (mkState ledger' (<[id := t1]> (tasks st)) (nextTaskId st)) id = t1)
    as G by apply getTask_insert_eq.
  rewrite reveal_spec; rewrite ?G; simpl; try assumption; try reflexivity.
  - rewrite Hw. reflexivity.
  - symmetry. exact Hout.
Qed.

End Composition.

Section EventLog.

Context {L : Type} `{Token : IERC20 L}.
Variable keccak256 : bytes -> bytes32.
Variable this : address.

Lemma completed_event_step st s id w out :
  In (TaskCompleted id w out) (events_of_step keccak256 this st s) ->
  exists msg salt st' ev,
    s = Tx msg (Reveal id out salt) /\ sender msg = w
    /\ reveal keccak256 this st msg id out salt = Ok (st', ev).
Proof.
  destruct s as [msg c | ledger]; simpl; [|contradiction].
  destruct (call keccak256 this st msg c) as [[st' ev]|] eqn:E; [|contradiction].
  destruct c as [i o s a b d | id' h | id' out' salt | id' | id']; simpl in E.
  - destruct (createTask _ _ _ _ _ _ _ _ _ _) as [[[s1 n1] e1]|] eqn:E1;
      simpl in E; inversion E; subst; clear E.
    apply createTask_Ok in E1 as (_ & _ & _ & _ & _ & _ & l & _ & _ & ->).
    intros [H0 | []]. discriminate.
  - pose proof E as E'.
    apply commit_Ok in E' as (_ & _ & _ & l & _ & _ & ->).
    intros [H0 | []]. discriminate.
  - pose proof E as E'.
    apply reveal_Ok in E' as (_ & _ & _ & _ & _ & _ & l & _ & _ & ->).
    intros [H0 | []]. inversion H0; subst. eauto 10.
  - pose proof E as E'.
    apply expireCommit_Ok in E' as (_ & _ & _ & l & _ & _ & ->).
    intros [H0 | []]. discriminate.
  - pose proof E as E'.
    apply claimTimeout_Ok in E' as (_ & _ & _ & l & _ & _ & ->).
    intros [H0 | []]. discriminate.
Qed.

Lemma completed_event_run st trace id w out :
  consistent st ->
  In (TaskCompleted id w out) (emitted keccak256 this st trace) ->
  let t := getTask (run keccak256 this st trace) id in
  state t = COMPLETED
  /\ keccak256 out = expectedOutputHash t
  /\ w = committedWorker t
  /\ N.of_nat (length out) <= MAX_OUTPUT_SIZE.
Proof.
  revert st. induction trace as [|s rest IH]; intros st Hc Hin; simpl in *.
  - contradiction.
  - apply in_app_or in Hin as [Hin | Hin].
    + apply completed_event_step in Hin
        as (msg & salt & st' & ev & -> & Hw & E).
      assert (step keccak256 this st (Tx msg (Reveal id out salt)) = st') as Hst.
      { simpl. by rewrite E. }
      rewrite Hst.
      apply reveal_Ok in E as (Hlen & Hs & Hcw & _ & _ & Ho & l & _ & -> & _).
      pose proof (committed_created _ id Hc Hs) as Hid.
      destruct (terminal_run keccak256 this
                  (mkState l (<[id := set_state (getTask st id) COMPLETED]> (tasks st))
                           (nextTaskId st)) rest id) as (Hsame & _).
      * exact Hid.
      * rewrite getTask_insert_eq. reflexivity.
      * rewrite Hsame, getTask_insert_eq. simpl.
        repeat split; try assumption. congruence.
    + apply IH; [by apply consistent_step | exact Hin].
Qed.

Lemma completed_state_run st trace id :
  consistent st ->
  state (getTask (run keccak256 this st trace) id) = COMPLETED ->
  state (getTask st id) = COMPLETED
  \/ exists w out, In (TaskCompleted id w out) (emitted keccak256 this st trace).
Proof.
  revert st. induction trace as [|s rest IH]; intros st Hc Hfin; simpl in *.
  - left. exact Hfin.
  - pose proof (consistent_step keccak256 this st s Hc) as Hc'.
    destruct (IH _ Hc' Hfin) as [Hs | (w & out & Hin)].
    2: { right. exists w, out. apply in_or_app. right. exact Hin. }
    destruct (N.lt_ge_cases id (nextTaskId st)) as [Hid | Hge].
    + destruct (step_task keccak256 this st s id Hid)
        as [(H & _) | [(m & h & _ & _ & _ & _ & H) | [(m & o & sa & -> & Hok & _ & H)
           | [(m & _ & _ & _ & H) | (m & _ & _ & _ & H)]]]];
        rewrite H in Hs; try discriminate.
      * left. exact Hs.
      * right. exists (sender m), o. apply in_or_app. left.
        simpl in *.
        destruct (reveal keccak256 this st m id o sa) as [[st' ev]|] eqn:E;
          [|discriminate].
        apply reveal_Ok in E as (_ & _ & _ & _ & _ & _ & l & _ & _ & ->).
        left. reflexivity.
    + destruct (N.lt_ge_cases id (nextTaskId (step keccak256 this st s)))
        as [Hid' | Hge'].
      * rewrite (fresh_step keccak256 this st s id Hge Hid') in Hs. discriminate.
      * destruct (Hc' id) as [_ Hn]. destruct (Hn Hge') as [Hz | Hz];
          rewrite Hz in Hs; discriminate.
Qed.

(** X11. The event log tells which tasks are completed and with what.
    After any run from deployment, a task is COMPLETED if and only if a
    [TaskCompleted] event was emitted for it; the output carried by
    such an event is at most 4096 bytes long and hashes to the task's
    [expectedOutputHash], and the worker it names is the task's
    [committedWorker]. *)
Theorem completed_iff_event ledger trace id :
  let st := run keccak256 this (init ledger) trace in
  let log := emitted keccak256 this (init ledger) trace in
  (state (getTask st id) = COMPLETED <-> exists w out, In (TaskCompleted id w out) log)
  /\ forall w out,
       In (TaskCompleted id w out) log ->
       keccak256 out = expectedOutputHash (getTask st id)
       /\ w = committedWorker (getTask st id)
       /\ N.of_nat (length out) <= 4096.
Proof.
  intros st log. split; [split|].
  - intros Hs.
    destruct (completed_state_run (init ledger) trace id (consistent_init ledger) Hs)
      as [H0 | H0]; [discriminate | exact H0].
  - intros (w & out & Hin).
    by apply (completed_event_run (init ledger) trace id w out (consistent_init ledger)).
  - intros w out Hin.
    by apply (completed_event_run (init ledger) trace id w out (consistent_init ledger)).
Qed.

End EventLog.

(** ** The books of the escrow *)

Lemma sum_upto_ext (f g : N -> N) (n : nat) :
  (forall k, (k < n)%nat -> f (N.of_nat k) = g (N.of_nat k)) ->
  sum_upto f n = sum_upto g n.
Proof.
  induction n as [|n IH]; intros H; simpl; [reflexivity|].
  rewrite IH by (intros k Hk; apply H; lia).
  rewrite H by lia. reflexivity.
Qed.

Lemma sum_upto_update (f g : N -> N) (n i : nat) :
  (i < n)%nat ->
  (forall k, (k < n)%nat -> k <> i -> g (N.of_nat k) = f (N.of_nat k)) ->
  sum_upto g n + f (N.of_nat i) = sum_upto f n + g (N.of_nat i).
Proof.
  induction n as [|n IH]; intros Hi H; [lia|]. simpl.
  destruct (decide (i = n)) as [-> | Hne].
  - rewrite (sum_upto_ext g f n) by (intros k Hk; apply H; lia). lia.
  - rewrite (H n) by lia.
    assert (sum_upto g n + f (N.of_nat i) = sum_upto f n + g (N.of_nat i)) as E
      by (apply IH; [lia | intros k Hk Hki; apply H; lia]).
    lia.
Qed.

Section Books.

Context {L : Type} `{Token : IERC20 L}.
Variable keccak256 : bytes -> bytes32.
Variable this : address.

(** Rewriting the record of a created task moves [total_locked] by the
    difference of what the two records lock. *)
Lemma total_locked_store (st : State L) (ledger : L) id t' :
  id < nextTaskId st ->
  total_locked (mkState ledger (<[id := t']> (tasks st)) (nextTaskId st))
  + locked (getTask st id)
  = total_locked st + locked t'.
Proof.
  intros Hid. unfold total_locked. simpl nextTaskId.
  pose proof (sum_upto_update
                (fun j => locked (getTask st j))
                (fun j => locked (getTask (mkState ledger (<[id := t']> (tasks st))
                                                   (nextTaskId st)) j))
                (N.to_nat (nextTaskId st)) (N.to_nat id)) as H.
  rewrite N2Nat.id in H. rewrite getTask_insert_eq in H.
  apply H; [lia|].
  intros k Hk Hne.
  rewrite (getTask_insert_ne (mnee st) ledger _ (nextTaskId st)) by lia.
  destruct st; reflexivity.
Qed.

Lemma total_locked_store_beyond (st : State L) (ledger : L) id t' :
  nextTaskId st <= id ->
  total_locked (mkState ledger (<[id := t']> (tasks st)) (nextTaskId st))
  = total_locked st.
Proof.
  intros Hid. unfold total_locked. simpl nextTaskId.
  apply sum_upto_ext. intros k Hk.
  rewrite (getTask_insert_ne (mnee st) ledger _ (nextTaskId st)) by lia.
  destruct st; reflexivity.
Qed.

Lemma total_locked_create (st : State L) (ledger : L) t' :
  total_locked (mkState ledger (<[nextTaskId st := t']> (tasks st)) (nextTaskId st + 1))
  = total_locked st + locked t'.
Proof.
  unfold total_locked. simpl nextTaskId.
  replace (N.to_nat (nextTaskId st + 1)) with (S (N.to_nat (nextTaskId st))) by lia.
  simpl. rewrite N2Nat.id, getTask_insert_eq. f_equal.
  apply sum_upto_ext. intros k Hk.
  rewrite (getTask_insert_ne (mnee st) ledger _ (nextTaskId st)) by lia.
  destruct st; reflexivity.
Qed.

Lemma total_locked_ledger (st : State L) (ledger : L) :
  total_locked (mkState ledger (tasks st) (nextTaskId st)) = total_locked st.
Proof. reflexivity. Qed.

Lemma books_step st s :
  consistent st ->
  pulled_by keccak256 this st s + total_locked st
  = paid_by keccak256 this st s + total_locked (step keccak256 this st s).
Proof.
  intros Hc. unfold pulled_by, paid_by.
  destruct s as [msg c | ledger]; simpl; [|reflexivity].
  destruct (call keccak256 this st msg c) as [[st' ev]|] eqn:E; [|reflexivity].
  destruct c as [i o s a b d | id h | id out salt | id | id]; simpl in E.
  - destruct (createTask _ _ _ _ _ _ _ _ _ _) as [[[s1 n1] e1]|] eqn:E1;
      simpl in E; inversion E; subst; clear E.
    apply createTask_Ok in E1 as (_ & _ & _ & _ & _ & -> & l & _ & -> & _).
    rewrite total_locked_create. unfold locked. simpl. lia.
  - apply commit_Ok in E as (Hs & Hd & _ & l & _ & -> & _).
    assert (id < nextTaskId st) as Hid.
    { destruct (N.lt_ge_cases id (nextTaskId st)) as [|Hge]; [done|].
      apply Hc, never_created_deadline in Hge. unfold REVEAL_WINDOW in *. lia. }
    pose proof (total_locked_store st l id
                  (set_commitment (set_state (getTask st id) COMMITTED) (sender msg) h
                     (timestamp msg + REVEAL_WINDOW)) Hid) as Hb.
    unfold locked in Hb at 1 2. simpl in Hb. rewrite Hs in Hb. lia.
  - apply reveal_Ok in E as (_ & Hs & _ & _ & _ & _ & l & _ & -> & _).
    pose proof (committed_created _ id Hc Hs) as Hid.
    pose proof (total_locked_store st l id (set_state (getTask st id) COMPLETED) Hid)
      as Hb.
    unfold locked in Hb at 1 2. simpl in Hb. rewrite Hs in Hb. lia.
  - apply expireCommit_Ok in E as (Hs & _ & _ & l & _ & -> & _).
    pose proof (committed_created _ id Hc Hs) as Hid.
    pose proof (total_locked_store st l id
                  (set_commitment (set_state (getTask st id) OPEN) 0 0 0) Hid) as Hb.
    unfold locked in Hb at 1 2. simpl in Hb. rewrite Hs in Hb. lia.
  - apply claimTimeout_Ok in E as (Hs & _ & _ & l & _ & -> & _).
    destruct (N.lt_ge_cases id (nextTaskId st)) as [Hid | Hge].
    + pose proof (total_locked_store st l id (set_state (getTask st id) REFUNDED) Hid)
        as Hb.
      unfold locked in Hb at 1 2. simpl in Hb. unfold refund.
      destruct Hs as [Hs | Hs]; rewrite Hs in *; simpl; lia.
    + rewrite total_locked_store_beyond by assumption.
      destruct (Hc id) as [_ Hn]. destruct (Hn Hge) as [Hz | Hz]; rewrite Hz in *.
      * reflexivity.
      * simpl in Hs. destruct Hs; discriminate.
Qed.

Lemma flows_are_token_calls st msg c st' ev :
  call keccak256 this st msg c = Ok (st', ev) ->
  (safeTransferFrom (mnee st) this (sender msg) this
     (pulled_by keccak256 this st (Tx msg c)) = Some (mnee st')
   /\ paid_by keccak256 this st (Tx msg c) = 0)
  \/ (exists to,
        safeTransfer (mnee st) this to (paid_by keccak256 this st (Tx msg c))
        = Some (mnee st')
        /\ pulled_by keccak256 this st (Tx msg c) = 0).
Proof.
  intros E. unfold pulled_by, paid_by. simpl. rewrite E.
  destruct c as [i o s a b d | id h | id out salt | id | id]; simpl in E.
  - left. destruct (createTask _ _ _ _ _ _ _ _ _ _) as [[[s1 n1] e1]|] eqn:E1;
      simpl in E; inversion E; subst; clear E.
    apply createTask_Ok in E1 as (_ & _ & _ & _ & _ & _ & l & Hl & -> & _). auto.
  - left. apply commit_Ok in E as (_ & _ & _ & l & Hl & -> & _). auto.
  - right. apply reveal_Ok in E as (_ & _ & _ & _ & _ & _ & l & Hl & -> & _). eauto.
  - right. apply expireCommit_Ok in E as (_ & _ & _ & l & Hl & -> & _). eauto.
  - right. apply claimTimeout_Ok in E as (_ & _ & _ & l & Hl & -> & _). eauto.
Qed.

(** X12. The books of the escrow balance. Over any run from
    deployment, the tokens the escrow has pulled in (amounts at
    createTask, bonds at commit) equal the tokens it has paid out (at
    reveal, expireCommit and claimTimeout) plus what it still holds for
    the created tasks: [amount] for each OPEN task and
    [amount + bondAmount] for each COMMITTED one. It never asks the
    token to pay out more than it pulled in, and when every task is
    COMPLETED or REFUNDED it has paid out everything. The amounts
    counted are the ones passed to the token, one transfer per call. *)
Theorem books_balance :
  (forall ledger trace,
     pulled keccak256 this (init ledger) trace
     = paid keccak256 this (init ledger) trace
       + total_locked (run keccak256 this (init ledger) trace))
  /\ (forall ledger trace,
        paid keccak256 this (init ledger) trace
        <= pulled keccak256 this (init ledger) trace)
  /\ (forall ledger trace,
        (forall id, id < nextTaskId (run keccak256 this (init ledger) trace) ->
                    terminal (state (getTask (run keccak256 this (init ledger) trace) id))
                    = true) ->
        paid keccak256 this (init ledger) trace
        = pulled keccak256 this (init ledger) trace)
  /\ (forall st msg c st' ev,
        call keccak256 this st msg c = Ok (st', ev) ->
        (safeTransferFrom (mnee st) this (sender msg) this
           (pulled_by keccak256 this st (Tx msg c)) = Some (mnee st')
         /\ paid_by keccak256 this st (Tx msg c) = 0)
        \/ (exists to,
              safeTransfer (mnee st) this to (paid_by keccak256 this st (Tx msg c))
              = Some (mnee st')
              /\ pulled_by keccak256 this st (Tx msg c) = 0)).
Proof.
  assert (forall st trace,
            consistent st ->
            pulled keccak256 this st trace + total_locked st
            = paid keccak256 this st trace
              + total_locked (run keccak256 this st trace)) as H.
  { intros st trace. revert st.
    induction trace as [|s rest IH]; intros st Hc; simpl; [lia|].
    pose proof (books_step st s Hc) as Hs.
    pose proof (IH _ (consistent_step keccak256 this st s Hc)) as Hr.
    lia. }
  assert (forall ledger trace,
            pulled keccak256 this (init ledger) trace
            = paid keccak256 this (init ledger) trace
              + total_locked (run keccak256 this (init ledger) trace)) as H0.
  { intros ledger trace.
    pose proof (H (init ledger) trace (consistent_init ledger)) as Hb.
    unfold total_locked at 1 in Hb. simpl in Hb. lia. }
  split; [exact H0|]. split; [|split].
  - intros ledger trace. rewrite H0. lia.
  - intros ledger trace Hterm. rewrite H0.
    assert (total_locked (run keccak256 this (init ledger) trace) = 0) as ->; [|lia].
    unfold total_locked.
    rewrite (sum_upto_ext _ (fun _ => 0)).
    + clear. induction (N.to_nat _) as [|n IH]; simpl; [reflexivity|].
      rewrite IH. reflexivity.
    + intros k Hk. unfold locked.
      specialize (Hterm (N.of_nat k)).
      destruct (state (getTask _ (N.of_nat k))); try reflexivity;
        (discriminate Hterm; lia).
  - apply flows_are_token_calls.
Qed.

End Books.

(** ** The encoding under the commit hash *)

Lemma byte_of_N_value (x : N) : Byte.to_N (byte_of_N x) = x mod 256.
Proof.
  unfold byte_of_N.
  destruct (Byte.of_N (x mod 256)) as [b|] eqn:E.
  - by apply Byte.to_of_N.
  - apply Byte.of_N_None_iff in E.
    pose proof (N.mod_upper_bound x 256). lia.
Qed.

Lemma be_bytes_length (n : nat) (x : N) : length (be_bytes n x) = n.
Proof.
  revert x. induction n as [|n IH]; intros x; simpl; [reflexivity|].
  rewrite length_app, IH. simpl. lia.
Qed.

Lemma be_value_snoc (bs : bytes) (b : byte) :
  Encoding.be_value (bs ++ [b]) = Encoding.be_value bs * 256 + Byte.to_N b.
Proof. unfold Encoding.be_value. rewrite fold_left_app. reflexivity. Qed.

Lemma be_value_be_bytes (n : nat) (x : N) :
  Encoding.be_value (be_bytes n x) = x mod 256 ^ N.of_nat n.
Proof.
  revert x. induction n as [|n IH]; intros x.
  - simpl. rewrite N.mod_1_r. reflexivity.
  - simpl be_bytes. rewrite be_value_snoc, IH, byte_of_N_value.
    rewrite Nat2N.inj_succ, N.pow_succ_r'.
    rewrite N.Div0.mod_mul_r. lia.
Qed.

(** X13. [abi.encode(outputHash, salt)] is 64 bytes long and keeps both
    words: two pairs of 32-byte values with the same encoding are the
    same pair, so the bytes hashed into a commit hash determine the
    output hash and the salt. *)
Theorem abi_encode_injective (a b a' b' : bytes32) :
  a <= MAX_UINT256 -> b <= MAX_UINT256 ->
  a' <= MAX_UINT256 -> b' <= MAX_UINT256 ->
  length (abi_encode a b) = 64%nat
  /\ Encoding.be_value (firstn 32 (abi_encode a b)) = a
  /\ Encoding.be_value (skipn 32 (abi_encode a b)) = b
  /\ (abi_encode a b = abi_encode a' b' -> a = a' /\ b = b').
Proof.
  intros Ha Hb Ha' Hb'.
  assert (forall x y, x <= MAX_UINT256 -> y <= MAX_UINT256 ->
            Encoding.be_value (firstn 32 (abi_encode x y)) = x
            /\ Encoding.be_value (skipn 32 (abi_encode x y)) = y) as Hdec.
  { intros x y Hx Hy. unfold abi_encode.
    rewrite firstn_app, skipn_app, !be_bytes_length.
    rewrite firstn_all2 by (rewrite be_bytes_length; lia).
    rewrite skipn_all2 by (rewrite be_bytes_length; lia).
    change (32 - 32)%nat with 0%nat. rewrite firstn_O, skipn_O.
    rewrite app_nil_r, app_nil_l. rewrite !be_value_be_bytes.
    change (256 ^ N.of_nat 32) with (MAX_UINT256 + 1).
    split; apply N.mod_small; lia. }
  split; [|split; [|split]].
  - unfold abi_encode. rewrite length_app, !be_bytes_length. reflexivity.
  - by apply Hdec.
  - by apply Hdec.
  - intros E.
    destruct (Hdec a b Ha Hb) as [H1 H2].
    destruct (Hdec a' b' Ha' Hb') as [H1' H2'].
    rewrite E in H1, H2. split; congruence.
Qed.

Section Liveness.

Context {L : Type} `{Token : IERC20 L}.
Variable keccak256 : bytes -> bytes32.
Variable this : address.

(** X14. No task is stuck after its deadline. In every state reachable
    from deployment, for every created task that is neither COMPLETED
    nor REFUNDED and at every time after its deadline, claimTimeout
    passes all its guards whoever calls it: it refunds the recorded
    requester and reverts only if the token refuses the transfer. (For
    a COMMITTED task the sum [amount + bondAmount] must fit a
    uint256.) *)
Theorem refund_always_available ledger trace msg id :
  let st := run keccak256 this (init ledger) trace in
  let t := getTask st id in
  id < nextTaskId st ->
  terminal (state t) = false ->
  deadline t < timestamp msg ->
  (state t = COMMITTED -> amount t + bondAmount t <= MAX_UINT256) ->
  claimTimeout this st msg id
  = match safeTransfer (mnee st) this (requester t) (refund t) with
    | Some ledger' =>
        Ok (mkState ledger' (<[id := set_state t REFUNDED]> (tasks st)) (nextTaskId st),
            [TaskRefunded id (requester t) (amount t)
               (if bool_decide (state t = COMMITTED) then bondAmount t else 0)])
    | None => Err TokenRevert
    end.
Proof.
  intros st t Hid Hterm Hd Hfit.
  apply claimTimeout_spec; fold st t; try assumption.
  intros Hs.
  destruct (consistent_reachable keccak256 this ledger trace id) as [Hlt _].
  destruct (Hlt Hid) as (_ & _ & _ & _ & Hcm & _).
  destruct (Hcm Hs) as [_ Hrd]. fold st t in Hrd. lia.
Qed.

End Liveness.

(** * The further properties on the sample run *)

Lemma task_terms_immutable_witness :
  0 < nextTaskId Sample.opened
  /\ terms (getTask (run sample_hash Sample.escrow Sample.opened
                         [Sample.commit_bob; Sample.reveal_bob]) 0)
     = terms (getTask Sample.opened 0).
Proof.
  assert (0 < nextTaskId Sample.opened) as H1 by (vm_compute; reflexivity).
  split; [exact H1|].
  exact (task_terms_immutable sample_hash Sample.escrow Sample.opened
           [Sample.commit_bob; Sample.reveal_bob] 0 H1).
Defined.

Lemma ids_sequential_witness :
  match createTask sample_hash Sample.escrow
          (run sample_hash Sample.escrow (init Sample.ledger0) [Sample.create])
          (mkMsg Sample.alice 1050) [x02] 7 5 20 2 5000 with
  | Ok (st', id, _) =>
      id = N.of_nat (creations sample_hash Sample.escrow (init Sample.ledger0)
                               [Sample.create])
      /\ nextTaskId st' = id + 1
  | Err _ => False
  end.
Proof.
  destruct (createTask sample_hash Sample.escrow
              (run sample_hash Sample.escrow (init Sample.ledger0) [Sample.create])
              (mkMsg Sample.alice 1050) [x02] 7 5 20 2 5000)
    as [[[st' id] ev]|] eqn:E.
  - destruct (ids_sequential (L := Ledger.t) sample_hash Sample.escrow) as (_ & _ & H).
    exact (H Sample.ledger0 [Sample.create] _ _ _ _ _ _ _ _ _ _ E).
  - vm_compute in E. discriminate.
Defined.

Lemma state_machine_witness :
  0 < nextTaskId Sample.opened
  /\ (getTask (step sample_hash Sample.escrow Sample.opened Sample.commit_bob) 0
      = getTask Sample.opened 0
      \/ allowed (state (getTask Sample.opened 0))
                 (state (getTask (step sample_hash Sample.escrow Sample.opened
                                       Sample.commit_bob) 0)) = true).
Proof.
  assert (0 < nextTaskId Sample.opened) as H1 by (vm_compute; reflexivity).
  split; [exact H1|].
  destruct (state_machine sample_hash Sample.escrow Sample.opened Sample.commit_bob
              0 H1) as [H | [H _]]; [left | right]; exact H.
Defined.


Lemma settlement_windows_witness :
  state (getTask (run sample_hash Sample.escrow (init Sample.ledger0)
                      [Sample.create; Sample.commit_bob]) 0) = COMMITTED
  /\ timestamp (mkMsg Sample.carol 1500)
     <= revealDeadline (getTask (run sample_hash Sample.escrow (init Sample.ledger0)
                                     [Sample.create; Sample.commit_bob]) 0)
  /\ expireCommit Sample.escrow
       (run sample_hash Sample.escrow (init Sample.ledger0)
            [Sample.create; Sample.commit_bob])
       (mkMsg Sample.carol 1500) 0
     = Err RevealWindowActive.
Proof.
  assert (state (getTask (run sample_hash Sample.escrow (init Sample.ledger0)
                              [Sample.create; Sample.commit_bob]) 0) = COMMITTED)
    as H1 by (vm_compute; reflexivity).
  assert (timestamp (mkMsg Sample.carol 1500)
          <= revealDeadline
               (getTask (run sample_hash Sample.escrow (init Sample.ledger0)
                             [Sample.create; Sample.commit_bob]) 0)) as H2
    by (vm_compute; discriminate).
  do 2 (split; [assumption|]).
  destruct (settlement_windows sample_hash Sample.escrow Sample.ledger0
              [Sample.create; Sample.commit_bob] (mkMsg Sample.carol 1500) 0 H1)
    as (H & _).
  exact (proj1 (H H2)).
Defined.

Lemma open_task_frozen_witness :
  let st := run sample_hash Sample.escrow (init Sample.ledger0) [Sample.create] in
  0 < nextTaskId st
  /\ state (getTask st 0) = OPEN
  /\ deadline (getTask st 0) - 600 <= timestamp (mkMsg Sample.bob 4100)
  /\ timestamp (mkMsg Sample.bob 4100) <= deadline (getTask st 0)
  /\ claimTimeout Sample.escrow st (mkMsg Sample.bob 4100) 0 = Err DeadlineNotPassed.
Proof.
  intros st.
  assert (0 < nextTaskId st) as H1 by (vm_compute; reflexivity).
  assert (state (getTask st 0) = OPEN) as H2 by (vm_compute; reflexivity).
  assert (deadline (getTask st 0) - 600 <= timestamp (mkMsg Sample.bob 4100)) as H3
    by (vm_compute; discriminate).
  assert (timestamp (mkMsg Sample.bob 4100) <= deadline (getTask st 0)) as H4
    by (vm_compute; discriminate).
  do 4 (split; [assumption|]).
  destruct (open_task_frozen sample_hash Sample.escrow Sample.ledger0 [Sample.create]
              (mkMsg Sample.bob 4100) 0 H1 H2 H3 H4) as (_ & H & _).
  exact H.
Defined.

Lemma committable_when_created_witness :
  match createTask sample_hash Sample.escrow (init Sample.ledger0)
          (mkMsg Sample.alice 1000) [x01] Sample.outputHash 5 10 1 4600 with
  | Ok (_, _, _) => 4600 <= MAX_UINT256 /\ timestamp (mkMsg Sample.alice 1000) + 600 < 4600
  | Err _ => False
  end.
Proof.
  destruct (createTask sample_hash Sample.escrow (init Sample.ledger0)
              (mkMsg Sample.alice 1000) [x01] Sample.outputHash 5 10 1 4600)
    as [[[st' id] ev]|] eqn:E.
  - assert (4600 <= MAX_UINT256) as H1 by (vm_compute; discriminate).
    split; [exact H1|].
    exact (proj1 (committable_when_created sample_hash Sample.escrow _ _ _ _ _ _ _ _
                    _ _ _ E H1)).
  - vm_compute in E. discriminate.
Defined.

Lemma bond_threshold_witness :
  N.of_nat (length [x01]) <= 4096 /\ 0 < 9 /\ 9 * 1000 <= MAX_UINT256
  /\ (createTask sample_hash Sample.escrow (init Sample.ledger0)
        (mkMsg Sample.alice 1000) [x01] 7 8 9 0 4600 = Err InvalidBondAmount
      <-> 0 < 9 / 10).
Proof.
  assert (N.of_nat (length [x01]) <= 4096) as H1 by (vm_compute; discriminate).
  assert (0 < 9) as H2 by reflexivity.
  assert (9 * 1000 <= MAX_UINT256) as H3 by (vm_compute; discriminate).
  do 3 (split; [assumption|]).
  exact (proj1 (bond_threshold sample_hash Sample.escrow (init Sample.ledger0)
                  (mkMsg Sample.alice 1000) [x01] 7 8 9 0 4600 H1 H2 H3)).
Defined.

Lemma commit_then_reveal_witness :
  match commit Sample.escrow Sample.opened (mkMsg Sample.bob 1100) 0
          (Encoding.computeCommitHash sample_hash
             (Encoding.computeOutputHash sample_hash Sample.X) Sample.S) with
  | Ok (st1, _) =>
      expectedOutputHash (getTask Sample.opened 0)
      = Encoding.computeOutputHash sample_hash Sample.X
      /\ N.of_nat (length Sample.X) <= 4096
      /\ amount (getTask Sample.opened 0) + bondAmount (getTask Sample.opened 0)
         <= MAX_UINT256
      /\ exists st2 ev2,
           reveal sample_hash Sample.escrow
                  (mkState (mnee st1) (tasks st1) (nextTaskId st1))
                  (mkMsg Sample.bob 1700) 0 Sample.X Sample.S
           = Ok (st2, ev2)
  | Err _ => False
  end.
Proof.
  destruct (commit Sample.escrow Sample.opened (mkMsg Sample.bob 1100) 0
              (Encoding.computeCommitHash sample_hash
                 (Encoding.computeOutputHash sample_hash Sample.X) Sample.S))
    as [[st1 ev1]|] eqn:E.
  - assert (expectedOutputHash (getTask Sample.opened 0)
            = Encoding.computeOutputHash sample_hash Sample.X) as H1
      by (vm_compute; reflexivity).
    assert (N.of_nat (length Sample.X) <= 4096) as H2 by (vm_compute; discriminate).
    assert (amount (getTask Sample.opened 0) + bondAmount (getTask Sample.opened 0)
            <= MAX_UINT256) as H3 by (vm_compute; discriminate).
    do 3 (split; [assumption|]).
    assert (timestamp (mkMsg Sample.bob 1700) <= timestamp (mkMsg Sample.bob 1100) + 600)
      as H4 by (vm_compute; discriminate).
    pose proof (commit_then_reveal sample_hash Sample.escrow Sample.opened
                  (mkMsg Sample.bob 1100) 0 Sample.X Sample.S st1 ev1 E H1 H2 H3
                  (mnee st1) (mkMsg Sample.bob 1700) eq_refl H4) as H.
    destruct (safeTransfer (mnee st1) Sample.escrow (sender (mkMsg Sample.bob 1100))
                (amount (getTask Sample.opened 0) + bondAmount (getTask Sample.opened 0)))
      as [l|] eqn:El.
    + eexists _, _. exact H.
    + exfalso. revert El. inversion E. vm_compute. discriminate.
  - vm_compute in E. discriminate.
Defined.

Lemma completed_iff_event_witness :
  In (TaskCompleted 0 Sample.bob Sample.X)
     (emitted sample_hash Sample.escrow (init Sample.ledger0)
        [Sample.create; Sample.commit_bob; Sample.reveal_bob])
  /\ sample_hash Sample.X
     = expectedOutputHash
         (getTask (run sample_hash Sample.escrow (init Sample.ledger0)
                       [Sample.create; Sample.commit_bob; Sample.reveal_bob]) 0).
Proof.
  assert (In (TaskCompleted 0 Sample.bob Sample.X)
             (emitted sample_hash Sample.escrow (init Sample.ledger0)
                [Sample.create; Sample.commit_bob; Sample.reveal_bob])) as H1
    by (vm_compute; auto 10).
  split; [exact H1|].
  destruct (completed_iff_event sample_hash Sample.escrow Sample.ledger0
              [Sample.create; Sample.commit_bob; Sample.reveal_bob] 0) as (_ & H).
  exact (proj1 (H Sample.bob Sample.X H1)).
Defined.

Lemma books_balance_witness :
  (forall id,
     id < nextTaskId (run sample_hash Sample.escrow (init Sample.ledger0)
                          [Sample.create; Sample.commit_bob; Sample.reveal_bob]) ->
     terminal (state (getTask (run sample_hash Sample.escrow (init Sample.ledger0)
                                   [Sample.create; Sample.commit_bob; Sample.reveal_bob])
                              id)) = true)
  /\ paid sample_hash Sample.escrow (init Sample.ledger0)
          [Sample.create; Sample.commit_bob; Sample.reveal_bob]
     = pulled sample_hash Sample.escrow (init Sample.ledger0)
              [Sample.create; Sample.commit_bob; Sample.reveal_bob].
Proof.
  assert (forall id,
            id < nextTaskId (run sample_hash Sample.escrow (init Sample.ledger0)
                                 [Sample.create; Sample.commit_bob; Sample.reveal_bob]) ->
            terminal (state (getTask (run sample_hash Sample.escrow (init Sample.ledger0)
                                          [Sample.create; Sample.commit_bob;
                                           Sample.reveal_bob]) id)) = true) as H1.
  { intros id Hid.
    assert (nextTaskId (run sample_hash Sample.escrow (init Sample.ledger0)
                            [Sample.create; Sample.commit_bob; Sample.reveal_bob]) = 1)
      as Hn by (vm_compute; reflexivity).
    rewrite Hn in Hid. assert (id = 0) as -> by lia.
    vm_compute. reflexivity. }
  split; [exact H1|].
  destruct (books_balance (L := Ledger.t) sample_hash Sample.escrow) as (_ & _ & H & _).
  exact (H Sample.ledger0 _ H1).
Defined.

Lemma abi_encode_injective_witness :
  5 <= MAX_UINT256 /\ 7 <= MAX_UINT256
  /\ length (abi_encode 5 7) = 64%nat
  /\ Encoding.be_value (skipn 32 (abi_encode 5 7)) = 7.
Proof.
  assert (5 <= MAX_UINT256) as H1 by (vm_compute; discriminate).
  assert (7 <= MAX_UINT256) as H2 by (vm_compute; discriminate).
  do 2 (split; [assumption|]).
  destruct (abi_encode_injective 5 7 5 7 H1 H2 H1 H2) as (Hl & _ & Hv & _).
  split; [exact Hl | exact Hv].
Defined.

Lemma refund_always_available_witness :
  let st := run sample_hash Sample.escrow (init Sample.ledger0)
                [Sample.create; Sample.commit_bob] in
  let msg := mkMsg Sample.carol 4601 in
  0 < nextTaskId st
  /\ terminal (state (getTask st 0)) = false
  /\ deadline (getTask st 0) < timestamp msg
  /\ amount (getTask st 0) + bondAmount (getTask st 0) <= MAX_UINT256
  /\ exists st' ev, claimTimeout Sample.escrow st msg 0 = Ok (st', ev).
Proof.
  intros st msg.
  assert (0 < nextTaskId st) as H1 by (vm_compute; reflexivity).
  assert (terminal (state (getTask st 0)) = false) as H2 by (vm_compute; reflexivity).
  assert (deadline (getTask st 0) < timestamp msg) as H3 by (vm_compute; reflexivity).
  assert (amount (getTask st 0) + bondAmount (getTask st 0) <= MAX_UINT256) as H4
    by (vm_compute; discriminate).
  do 4 (split; [assumption|]).
  pose proof (refund_always_available sample_hash Sample.escrow Sample.ledger0
                [Sample.create; Sample.commit_bob] msg 0 H1 H2 H3 (fun _ => H4)) as H.
  fold st in H.
  destruct (safeTransfer (mnee st) Sample.escrow (requester (getTask st 0))
              (refund (getTask st 0))) as [l|] eqn:El.
  - eexists _, _. exact H.
  - exfalso. revert El. vm_compute. discriminate.
Defined.

Section CreationLog.

Context {L : Type} `{Token : IERC20 L}.
Variable keccak256 : bytes -> bytes32.
Variable this : address.

Lemma created_event_step st s id r input ih oh sh a b d :
  In (TaskCreated id r input ih oh sh a b d) (events_of_step keccak256 this st s) ->
  exists msg st' ev,
    s = Tx msg (CreateTask input oh sh a b d) /\ sender msg = r
    /\ ih = keccak256 input
    /\ createTask keccak256 this st msg input oh sh a b d = Ok (st', id, ev).
Proof.
  destruct s as [msg c | ledger]; simpl; [|contradiction].
  destruct (call keccak256 this st msg c) as [[st' ev]|] eqn:E; [|contradiction].
  destruct c as [i o s a' b' d' | id' h | id' out' salt | id' | id']; simpl in E.
  - destruct (createTask _ _ _ _ _ _ _ _ _ _) as [[[s1 n1] e1]|] eqn:E1;
      simpl in E; inversion E; subst; clear E.
    pose proof E1 as E2.
    apply createTask_Ok in E2 as (_ & _ & _ & _ & _ & -> & l & _ & _ & ->).
    intros [H0 | []]. inversion H0; subst. eauto 10.
  - pose proof E as E'.
    apply commit_Ok in E' as (_ & _ & _ & l & _ & _ & ->).
    intros [H0 | []]. discriminate.
  - pose proof E as E'.
    apply reveal_Ok in E' as (_ & _ & _ & _ & _ & _ & l & _ & _ & ->).
    intros [H0 | []]. discriminate.
  - pose proof E as E'.
    apply expireCommit_Ok in E' as (_ & _ & _ & l & _ & _ & ->).
    intros [H0 | []]. discriminate.
  - pose proof E as E'.
    apply claimTimeout_Ok in E' as (_ & _ & _ & l & _ & _ & ->).
    intros [H0 | []]. discriminate.
Qed.

(** X15. What a [TaskCreated] event announces stays true. If the log of
    a run holds [TaskCreated(id, requester, inputBytes, inputHash,
    expectedOutputHash, specHash, amount, bondAmount, deadline)], then
    at the end of the run task [id] exists and has exactly that
    requester, those hashes, amount, bond and deadline; the input is at
    most 4096 bytes long and [inputHash] is its hash; the amount is
    positive and the bond at least [amount / 10]. *)
Theorem created_event_terms st trace id r input ih oh sh a b d :
  In (TaskCreated id r input ih oh sh a b d) (emitted keccak256 this st trace) ->
  let st' := run keccak256 this st trace in
  id < nextTaskId st'
  /\ terms (getTask st' id) = (r, ih, oh, sh, a, b, d)
  /\ ih = keccak256 input
  /\ N.of_nat (length input) <= 4096
  /\ 0 < a
  /\ a / 10 <= b.
Proof.
  revert st. induction trace as [|s rest IH]; intros st Hin; simpl in *.
  - contradiction.
  - apply in_app_or in Hin as [Hin | Hin]; [|by apply IH].
    apply created_event_step in Hin as (msg & st1 & ev & -> & Hr & Hih & E).
    assert (step keccak256 this st (Tx msg (CreateTask input oh sh a b d)) = st1)
      as Hst by (simpl; by rewrite E).
    rewrite Hst.
    apply createTask_Ok in E as (Hlen & Ha & _ & Hb & _ & -> & l & _ & -> & _).
    rewrite bond_floor in Hb.
    set (st1 := mkState l _ _).
    assert (nextTaskId st < nextTaskId st1) as Hid by (simpl; lia).
    pose proof (nextTaskId_run keccak256 this st1 rest) as Hmono.
    split; [lia|].
    rewrite (terms_run keccak256 this st1 rest _ Hid).
    unfold st1. rewrite getTask_insert_eq. unfold terms. simpl.
    subst. repeat split; assumption.
Qed.

(** X16. What griefing costs. In every state reachable from deployment
    a created task has [bondAmount >= amount / 10] (integer division),
    so a successful expireCommit pays the requester a slashed bond of
    at least a tenth of the amount, rounded down, and a successful
    claimTimeout on a COMMITTED task pays the requester the amount plus
    at least that. *)
Theorem griefing_cost ledger trace msg id st' ev :
  let st := run keccak256 this (init ledger) trace in
  let t := getTask st id in
  state t = COMMITTED ->
  (expireCommit this st msg id = Ok (st', ev) ->
   amount t / 10 <= bondAmount t
   /\ safeTransfer (mnee st) this (requester t) (bondAmount t) = Some (mnee st')
   /\ ev = [CommitExpired id (committedWorker t) (bondAmount t)])
  /\ (claimTimeout this st msg id = Ok (st', ev) ->
      amount t + amount t / 10 <= amount t + bondAmount t
      /\ safeTransfer (mnee st) this (requester t) (amount t + bondAmount t)
         = Some (mnee st')
      /\ ev = [TaskRefunded id (requester t) (amount t) (bondAmount t)]).
Proof.
  intros st t Hs.
  pose proof (consistent_reachable keccak256 this ledger trace) as Hc.
  pose proof (committed_created _ id Hc Hs) as Hid.
  destruct (Hc id) as [Hlt _].
  destruct (Hlt Hid) as (_ & _ & Hb & _). fold st t in Hb.
  split.
  - intros E. apply expireCommit_Ok in E as (_ & _ & _ & l & Hl & -> & ->).
    auto.
  - intros E. apply claimTimeout_Ok in E as (_ & _ & _ & l & Hl & -> & ->).
    fold st t in Hl. unfold refund in Hl. fold t. rewrite Hs in *. simpl in *.
    repeat split; try assumption. lia.
Qed.

End CreationLog.

Lemma created_event_terms_witness :
  In (TaskCreated 0 Sample.alice [x01] (sample_hash [x01]) Sample.outputHash 5 10 1 4600)
     (emitted sample_hash Sample.escrow (init Sample.ledger0)
        [Sample.create; Sample.commit_bob; Sample.reveal_bob])
  /\ terms (getTask Sample.completed 0)
     = (Sample.alice, sample_hash [x01], Sample.outputHash, 5, 10, 1, 4600).
Proof.
  assert (In (TaskCreated 0 Sample.alice [x01] (sample_hash [x01]) Sample.outputHash
                5 10 1 4600)
             (emitted sample_hash Sample.escrow (init Sample.ledger0)
                [Sample.create; Sample.commit_bob; Sample.reveal_bob])) as H1
    by (vm_compute; auto 10).
  split; [exact H1|].
  destruct (created_event_terms sample_hash Sample.escrow _ _ _ _ _ _ _ _ _ _ _ H1)
    as (_ & H & _).
  exact H.
Defined.

Lemma griefing_cost_witness :
  match expireCommit Sample.escrow
          (run sample_hash Sample.escrow (init Sample.ledger0)
               [Sample.create; Sample.commit_bob])
          (mkMsg Sample.carol 1701) 0 with
  | Ok (_, _) =>
      state (getTask (run sample_hash Sample.escrow (init Sample.ledger0)
                          [Sample.create; Sample.commit_bob]) 0) = COMMITTED
      /\ amount (getTask (run sample_hash Sample.escrow (init Sample.ledger0)
                              [Sample.create; Sample.commit_bob]) 0) / 10
         <= bondAmount (getTask (run sample_hash Sample.escrow (init Sample.ledger0)
                                     [Sample.create; Sample.commit_bob]) 0)
  | Err _ => False
  end.
Proof.
  destruct (expireCommit Sample.escrow
              (run sample_hash Sample.escrow (init Sample.ledger0)
                   [Sample.create; Sample.commit_bob])
              (mkMsg Sample.carol 1701) 0) as [[st' ev]|] eqn:E.
  - assert (state (getTask (run sample_hash Sample.escrow (init Sample.ledger0)
                                [Sample.create; Sample.commit_bob]) 0) = COMMITTED)
      as H1 by (vm_compute; reflexivity).
    split; [exact H1|].
    destruct (griefing_cost sample_hash Sample.escrow Sample.ledger0
                [Sample.create; Sample.commit_bob] (mkMsg Sample.carol 1701) 0 st' ev H1)
      as (H & _).
    exact (proj1 (H E)).
  - vm_compute in E. discriminate.
Defined.

(** * The agents *)

(** X17. The pending-reveal store is a JavaScript object kept in one
    file. Where the file is missing, unparsable, or holds an object [o]
    of reveals, [addPendingReveal] and [removePendingReveal] return and
    leave the entries of every other key as they were read before; the
    reveal read back after an add is the one added, except under the
    key [__proto__] when [o] has no such entry: then nothing is stored
    and the read gives the inherited prototype, not the reveal. After a
    remove the read gives [undefined], except under a name that
    [Object.prototype] defines, where it gives the inherited value.
    Where the file holds [null], or a value without [pendingReveals],
    add, remove and get throw, and nothing is written. A missing or
    unparsable file reads as an empty object, so the first add after it
    (under a key other than [__proto__]) leaves exactly one entry. *)
Theorem pending_reveal_store (d : Persistence.Disk) (taskId : string)
    (reveal : Persistence.PendingReveal) :
  (forall o,
     (Persistence.getAllPendingReveals d).2
     = Persistence.Returns (Persistence.Object o) ->
     let d1 := (Persistence.addPendingReveal taskId reveal d).1 in
     let d2 := (Persistence.removePendingReveal taskId d).1 in
     let setter := bool_decide (taskId = "__proto__") && bool_decide (o !! taskId = None) in
     (Persistence.addPendingReveal taskId reveal d).2 = Persistence.Returns tt
     /\ (Persistence.removePendingReveal taskId d).2 = Persistence.Returns tt
     /\ (Persistence.getPendingReveal taskId d1).2
        = Persistence.Returns
            (if setter then Persistence.Inherited taskId else Persistence.Own reveal)
     /\ (Persistence.getAllPendingReveals d1).2
        = Persistence.Returns
            (Persistence.Object (if setter then o else <[taskId := reveal]> o))
     /\ (Persistence.getPendingReveal taskId d2).2
        = Persistence.Returns
            (if bool_decide (taskId ∈ Persistence.Object_prototype)
             then Persistence.Inherited taskId else Persistence.Undefined)
     /\ (forall other,
           other <> taskId ->
           (Persistence.getPendingReveal other d1).2
           = (Persistence.getPendingReveal other d).2
           /\ (Persistence.getPendingReveal other d2).2
              = (Persistence.getPendingReveal other d).2))
  /\ ((Persistence.getAllPendingReveals d).2 = Persistence.Throws
      \/ (Persistence.getAllPendingReveals d).2
         = Persistence.Returns Persistence.Nullish ->
      Persistence.addPendingReveal taskId reveal d
      = (Persistence.ensureDataDir d, Persistence.Throws)
      /\ Persistence.removePendingReveal taskId d
         = (Persistence.ensureDataDir d, Persistence.Throws)
      /\ Persistence.getPendingReveal taskId d
         = (Persistence.ensureDataDir d, Persistence.Throws))
  /\ ((forall content, d <> Persistence.DataDir (Persistence.Holds content)) ->
      (Persistence.getAllPendingReveals d).2
      = Persistence.Returns (Persistence.Object ∅)
      /\ (taskId <> "__proto__" ->
          (Persistence.getAllPendingReveals
             (Persistence.addPendingReveal taskId reveal d).1).2
          = Persistence.Returns (Persistence.Object {[taskId := reveal]}))).
Proof.
  split; [|split].
  - intros o Ho d1 d2 setter.
    assert (Persistence.loadWorkerState d
            = (Persistence.ensureDataDir d,
               Persistence.Value (Persistence.mkWorkerState (Persistence.Object o))))
      as Hload.
    { revert Ho. unfold Persistence.getAllPendingReveals, Persistence.loadWorkerState.
      destruct d as [|[| |[|[[|m]]]]]; simpl; intros Ho;
        inversion Ho; subst; reflexivity. }
    assert (forall st d0,
              Persistence.loadWorkerState (Persistence.saveWorkerState st d0)
              = (Persistence.DataDir (Persistence.Holds (Persistence.Value st)),
                 Persistence.Value st)) as Hsaved by reflexivity.
    subst d1 d2.
    unfold Persistence.addPendingReveal, Persistence.removePendingReveal,
      Persistence.getPendingReveal, Persistence.getAllPendingReveals.
    rewrite Hload. cbn [fst snd]. rewrite !Hsaved. cbn [fst snd].
    unfold Persistence.js_set, Persistence.js_get, Persistence.js_delete.
    fold setter.
    split; [reflexivity|]. split; [reflexivity|].
    split; [|split; [|split]].
    + destruct setter eqn:Hs.
      * apply andb_true_iff in Hs as [Hk Hnone].
        apply bool_decide_eq_true in Hk, Hnone. rewrite Hnone.
        rewrite bool_decide_eq_true_2; [reflexivity|].
        subst taskId. set_solver.
      * by rewrite lookup_insert_eq.
    + by destruct setter.
    + by rewrite lookup_delete_eq.
    + intros other Hne. split.
      * destruct setter; [reflexivity|]. by rewrite lookup_insert_ne.
      * by rewrite lookup_delete_ne.
  - unfold Persistence.getAllPendingReveals, Persistence.addPendingReveal,
      Persistence.removePendingReveal, Persistence.getPendingReveal,
      Persistence.loadWorkerState.
    destruct d as [|[| |[|[[|m]]]]]; simpl; intros [H | H]; try discriminate;
      repeat split.
  - intros Hno.
    unfold Persistence.getAllPendingReveals, Persistence.addPendingReveal,
      Persistence.loadWorkerState, Persistence.saveWorkerState, Persistence.js_set.
    destruct d as [|[| |c]]; simpl;
      try (split; [reflexivity|]; intros Hk;
           rewrite bool_decide_eq_false_2 by exact Hk; reflexivity).
    exfalso. by apply (Hno c).
Qed.

Lemma pending_reveal_store_witness :
  let d := Persistence.DataDir Persistence.Unparsable in
  let reveal := Persistence.mkPendingReveal "0x53" "0x58" "0xc0" 1100 1700 in
  (Persistence.getAllPendingReveals d).2 = Persistence.Returns (Persistence.Object ∅)
  /\ (Persistence.getPendingReveal "1"
        (Persistence.addPendingReveal "1" reveal d).1).2
     = Persistence.Returns (Persistence.Own reveal)
  /\ (Persistence.getPendingReveal "__proto__"
        (Persistence.addPendingReveal "__proto__" reveal d).1).2
     = Persistence.Returns (Persistence.Inherited "__proto__")
  /\ (Persistence.getPendingReveal "constructor"
        (Persistence.removePendingReveal "constructor" d).1).2
     = Persistence.Returns (Persistence.Inherited "constructor")
  /\ Persistence.addPendingReveal "1" reveal
       (Persistence.DataDir
          (Persistence.Holds
             (Persistence.Value (Persistence.mkWorkerState Persistence.Nullish))))
     = (Persistence.DataDir
          (Persistence.Holds
             (Persistence.Value (Persistence.mkWorkerState Persistence.Nullish))),
        Persistence.Throws).
Proof.
  intros d reveal.
  assert ((Persistence.getAllPendingReveals d).2
          = Persistence.Returns (Persistence.Object ∅)) as H1 by reflexivity.
  split; [exact H1|].
  destruct (pending_reveal_store d "1" reveal) as (Ha & _).
  destruct (pending_reveal_store d "__proto__" reveal) as (Hb & _).
  destruct (pending_reveal_store d "constructor" reveal) as (Hc & _).
  split; [exact (proj1 (proj2 (proj2 (Ha ∅ H1))))|].
  split; [exact (proj1 (proj2 (proj2 (Hb ∅ H1))))|].
  split; [exact (proj1 (proj2 (proj2 (proj2 (proj2 (Hc ∅ H1))))))|].
  destruct (pending_reveal_store
              (Persistence.DataDir
                 (Persistence.Holds
                    (Persistence.Value (Persistence.mkWorkerState Persistence.Nullish))))
              "1" reveal) as (_ & Hd & _).
  exact (proj1 (Hd (or_intror eq_refl))).
Defined.

Section Agents.

Context {L : Type} `{Token : IERC20 L}.
Variable keccak256 : bytes -> bytes32.
Variable this : address.

(** [Number(x)] for a bigint [x]: exact up to [2^53]. *)
Variable toNumber : Z -> Z.
Hypothesis toNumber_exact : forall x, (0 <= x <= 2 ^ 53)%Z -> toNumber x = x.

Lemma evaluateTask_Accept config currentTime output feeData event profit out :
  Worker.evaluateTask keccak256 toNumber config currentTime output feeData event
  = Worker.Accept profit out ->
  In (Worker.specHash event) (Worker.supportedSpecs config)
  /\ (currentTime
      < toNumber (Worker.deadline event) - 600 - Worker.commitBuffer config)%Z
  /\ output = Some out
  /\ keccak256 out = Worker.expectedOutputHash event
  /\ (Worker.minProfitMargin config <= profit)%Z.
Proof.
  unfold Worker.evaluateTask, Encoding.computeOutputHash. intros H.
  destruct (existsb _ _) eqn:Hspec; simpl in H; [|discriminate].
  destruct (Z.leb _ currentTime) eqn:Htime; [discriminate|].
  destruct output as [o|]; [|discriminate].
  destruct (keccak256 o =? Worker.expectedOutputHash event) eqn:Hhash;
    simpl in H; [|discriminate].
  destruct (match Worker.gasPrice feeData with
            | Some g => Some g
            | None => Worker.maxFeePerGas feeData
            end) as [g|]; [|discriminate].
  destruct (Z.eqb g 0); [discriminate|].
  destruct (Z.ltb _ (Worker.minProfitMargin config)) eqn:Hprofit; [discriminate|].
  inversion H; subst; clear H.
  apply existsb_exists in Hspec as (x & Hin & Hx).
  apply N.eqb_eq in Hx. subst x.
  apply N.eqb_eq in Hhash. apply Z.leb_gt in Htime. apply Z.ltb_ge in Hprofit.
  unfold REVEAL_WINDOW in Htime. simpl in Htime.
  repeat split; try assumption.
Qed.

(** X18. What the worker accepts, the contract lets it do. When
    [evaluateTask] accepts an event, the spec is one the worker
    supports, the output it computed hashes to the expected output
    hash of the event, and the estimated profit is at least the
    configured margin. Moreover, with a non-negative commit buffer and
    a deadline below [2^53], on any state where the task is still OPEN
    with the deadline the event announced, a commit sent by the worker
    and mined no later than [commitBuffer] seconds after the evaluation
    passes both guards of commit. *)
Theorem worker_accepts_committable config currentTime output feeData event profit out :
  Worker.evaluateTask keccak256 toNumber config currentTime output feeData event
  = Worker.Accept profit out ->
  In (Worker.specHash event) (Worker.supportedSpecs config)
  /\ output = Some out
  /\ Encoding.computeOutputHash keccak256 out = Worker.expectedOutputHash event
  /\ (Worker.minProfitMargin config <= profit)%Z
  /\ forall st id msg salt,
       (0 <= Worker.commitBuffer config)%Z ->
       (Worker.deadline event <= 2 ^ 53)%Z ->
       state (getTask st id) = OPEN ->
       Z.of_N (deadline (getTask st id)) = Worker.deadline event ->
       (Z.of_N (timestamp msg) <= currentTime + Worker.commitBuffer config)%Z ->
       let t := getTask st id in
       let h := Encoding.computeCommitHash keccak256
                  (Encoding.computeOutputHash keccak256 out) salt in
       commit this st msg id h
       = match safeTransferFrom (mnee st) this (sender msg) this (bondAmount t) with
         | Some ledger =>
             Ok (mkState ledger
                   (<[id := mkTask (requester t) (inputHash t) (expectedOutputHash t)
                                   (specHash t) (amount t) (bondAmount t) (deadline t)
                                   COMMITTED (sender msg) h (timestamp msg + 600)]>
                      (tasks st))
                   (nextTaskId st),
                 [TaskCommitted id (sender msg) h (bondAmount t) (timestamp msg + 600)])
         | None => Err TokenRevert
         end.
Proof.
  intros H.
  apply evaluateTask_Accept in H as (Hspec & Htime & Hout & Hhash & Hprofit).
  do 4 (split; [assumption|]).
  intros st id msg salt Hbuf H53 Hs Hd Hnow t h.
  rewrite toNumber_exact in Htime by lia.
  assert (2 ^ 53 <= Z.of_N MAX_UINT256)%Z as Hmax by (vm_compute; discriminate).
  subst t.
  apply commit_spec; try assumption; unfold REVEAL_WINDOW; lia.
Qed.


End Agents.

Lemma worker_accepts_committable_witness :
  let config := Worker.mkWorkerConfig (10 ^ 17) [5] 60 120 (10 ^ 18) in
  let event := Worker.mkTaskCreatedEvent 0 Sample.alice [x01] (sample_hash [x01])
                 Sample.outputHash 5 (10 ^ 19) (10 ^ 18) 4600 in
  let feeData := Worker.mkFeeData (Some (10 ^ 9)%Z) None in
  match Worker.evaluateTask sample_hash (fun x => x) config 1000 (Some Sample.X)
          feeData event with
  | Worker.Accept profit out =>
      (0 <= Worker.commitBuffer config)%Z
      /\ (Worker.deadline event <= 2 ^ 53)%Z
      /\ state (getTask Sample.opened 0) = OPEN
      /\ Z.of_N (deadline (getTask Sample.opened 0)) = Worker.deadline event
      /\ (Z.of_N (timestamp (mkMsg Sample.bob 1050))
          <= 1000 + Worker.commitBuffer config)%Z
      /\ exists st' ev,
           commit Sample.escrow Sample.opened (mkMsg Sample.bob 1050) 0
                  (Encoding.computeCommitHash sample_hash
                     (Encoding.computeOutputHash sample_hash out) Sample.S)
           = Ok (st', ev)
  | Worker.Skip _ => False
  end.
Proof.
  intros config event feeData.
  destruct (Worker.evaluateTask sample_hash (fun x => x) config 1000 (Some Sample.X)
              feeData event) as [why | profit out] eqn:E.
  - vm_compute in E. discriminate.
  - assert (0 <= Worker.commitBuffer config)%Z as H1 by (vm_compute; discriminate).
    assert (Worker.deadline event <= 2 ^ 53)%Z as H2 by (vm_compute; discriminate).
    assert (state (getTask Sample.opened 0) = OPEN) as H3 by (vm_compute; reflexivity).
    assert (Z.of_N (deadline (getTask Sample.opened 0)) = Worker.deadline event) as H4
      by (vm_compute; reflexivity).
    assert (Z.of_N (timestamp (mkMsg Sample.bob 1050))
            <= 1000 + Worker.commitBuffer config)%Z as H5
      by (vm_compute; discriminate).
    do 5 (split; [assumption|]).
    destruct (worker_accepts_committable (L := Ledger.t) sample_hash Sample.escrow
                (fun x => x) (fun x _ => eq_refl) config 1000 (Some Sample.X) feeData
                event profit out E) as (_ & _ & _ & _ & H).
    specialize (H Sample.opened 0 (mkMsg Sample.bob 1050) Sample.S H1 H2 H3 H4 H5).
    simpl in H.
    destruct (safeTransferFrom (mnee Sample.opened) Sample.escrow Sample.bob
                Sample.escrow (bondAmount (getTask Sample.opened 0))) as [l|] eqn:El.
    + eexists _, _. exact H.
    + exfalso. revert El. vm_compute. discriminate.
Defined.

